(** * Position lists of Hyrise: a shallow embedding and its properties

    The development follows the sources under [src/lib/storage]:
    - [pos_list.hpp], three successive revisions of [struct PosList]
      (iterator wrapper, fixed iterator wrapper, lazy materialization);
    - [abstract_pos_list.hpp], the polymorphic [AbstractPosList] and the
      materialized [PosList] deriving from it;
    - the header of [MatchesAllPosList] together with the revision of
      [AbstractPosList] that carries the [PosListIterator] facade;
    - [pos_lists/single_chunk_pos_list.hpp] and its out-of-line revision.

    Unsigned machine integers are values of [N] with the wrap-around written
    where the source casts or increments; a [pmr_vector<RowID>] is a
    [list RowID]; failing assertions and undefined behaviour are outcomes of
    an explicit outcome type; the lazily materializing revision threads the
    object state explicitly. *)

From stdpp Require Import base decidable option numbers list strings.

Local Open Scope N_scope.

(** ** types.hpp, chunk.hpp *)

Module Types.

(** Modelled from the spec: [types.hpp] is not part of the sources at hand.
    [ChunkID] and [ChunkOffset] are small unsigned integers (32 bits in
    Hyrise), [INVALID_CHUNK_ID] is the reserved largest value, and a
    [RowID] pairs a chunk id with an offset. *)
Definition ChunkID : Type := N.
Definition ChunkOffset : Type := N.
Definition size_t : Type := N.

Definition ChunkOffset_modulus : N := 2 ^ 32.

(** [static_cast<ChunkOffset>(n)] *)
Definition to_ChunkOffset (n : N) : ChunkOffset := n mod ChunkOffset_modulus.

(** [++offset] on a [ChunkOffset] *)
Definition ChunkOffset_incr (o : ChunkOffset) : ChunkOffset :=
  to_ChunkOffset (o + 1).

Definition INVALID_CHUNK_ID : ChunkID := ChunkOffset_modulus - 1.

Record RowID : Type := mkRowID { chunk_id : ChunkID; chunk_offset : ChunkOffset }.

#[global] Instance RowID_eq_dec : EqDecision RowID.
Proof. solve_decision. Defined.

(** Modelled from the spec: [chunk.hpp] is not part of the sources at hand.
    Position lists only ask a chunk for its current row count; in Hyrise
    [Chunk::size()] returns a [ChunkOffset]. *)
Record Chunk : Type := mkChunk { row_count : N }.

Definition Chunk_size (c : Chunk) : ChunkOffset := to_ChunkOffset (row_count c).

(** A [std::shared_ptr<const Chunk>] is the address of the chunk it keeps
    alive, or [nullptr]; the chunks themselves live in a store that maps
    every address to the chunk found there.  Two pointers compare equal
    exactly when they hold the same address. *)
Definition address : Type := N.
Definition shared_ptr_Chunk : Type := option address.
Definition nullptr : shared_ptr_Chunk := None.
Definition ChunkStore : Type := address → Chunk.

(** [MemoryUsageCalculationMode] *)
Inductive MemoryUsageCalculationMode : Type := Sampled | Full.

(** The row ids [{c, first}, {c, first+1}, ...] written by the loop
    [for (offset = first; ...; ++offset) v[offset] = {c, offset}],
    [n] iterations. *)
Fixpoint fill_chunk_rows (c : ChunkID) (offset : ChunkOffset) (n : nat) : list RowID :=
  match n with
  | O => []
  | S n' => mkRowID c offset :: fill_chunk_rows c (ChunkOffset_incr offset) n'
  end.

End Types.

(** ** utils/assert.hpp *)

Module Assertions.

(** What a call does: it returns a value, it throws the [std::logic_error]
    of a failed assertion (with the assertion's message), or it runs into
    undefined behaviour (an unchecked access outside a container). *)
Inductive Outcome (A : Type) : Type :=
| Returns (a : A)
| Fails (msg : string)
| Undefined.
#[global] Arguments Returns {A} a.
#[global] Arguments Fails {A} msg.
#[global] Arguments Undefined {A}.

#[global] Instance Outcome_ret : MRet Outcome := λ A a, Returns a.
#[global] Instance Outcome_bind : MBind Outcome := λ A B f m,
  match m with
  | Returns a => f a
  | Fails msg => Fails msg
  | Undefined => Undefined
  end.

Definition returned {A} (o : Outcome A) : Prop := ∃ a, o = Returns a.
Definition failed {A} (o : Outcome A) : Prop := ∃ msg, o = Fails msg.

(** Modelled from the spec: [utils/assert.hpp] is not part of the sources
    at hand.  [Assert] is checked in every build and fails fast;
    [DebugAssert] is checked in debug builds only, and in a release
    build its condition is not even evaluated. *)
Definition Assert (cond : bool) (msg : string) : Outcome unit :=
  if cond then Returns tt else Fails msg.

Definition DebugAssert (HYRISE_DEBUG : bool) (cond : Outcome bool) (msg : string)
  : Outcome unit :=
  if HYRISE_DEBUG then b ← cond; Assert b msg else Returns tt.

(** Unchecked [std::vector::operator[]]. *)
Definition Vector_index {A} (v : list A) (n : N) : Outcome A :=
  match v !! N.to_nat n with
  | Some x => Returns x
  | None => Undefined
  end.

Definition Vector_size {A} (v : list A) : N := N.of_nat (length v).

(** Computations on one object whose state they may change: the state
    after the call is returned also when the call throws. *)
Definition Method (S A : Type) : Type := S → Outcome A * S.

Definition ret {S A} (a : A) : Method S A := λ s, (Returns a, s).

Definition bind {S A B} (m : Method S A) (f : A → Method S B) : Method S B :=
  λ s, match m s with
       | (Returns a, s') => f a s'
       | (Fails msg, s') => (Fails msg, s')
       | (Undefined, s') => (Undefined, s')
       end.

Definition gets {S A} (f : S → A) : Method S A := λ s, (Returns (f s), s).
Definition modify {S} (f : S → S) : Method S unit := λ s, (Returns tt, f s).
Definition lift {S A} (o : Outcome A) : Method S A := λ s, (o, s).

Definition DebugAssertM {S} (HYRISE_DEBUG : bool) (cond : Method S bool) (msg : string)
  : Method S unit :=
  if HYRISE_DEBUG then bind cond (λ b, lift (Assert b msg)) else ret tt.

End Assertions.

Declare Scope method_scope.
Delimit Scope method_scope with method.
Notation "x <- m ;; k" := (Assertions.bind m (λ x, k))
  (at level 100, m at next level, right associativity) : method_scope.
Notation "m ;;; k" := (Assertions.bind m (λ _, k))
  (at level 100, right associativity) : method_scope.

(** ** pos_list.hpp, third revision: lazy materialization (lines 554-913) *)

Module LazyPosList.
Import Types Assertions.

(** [struct PosList final : private pmr_vector<RowID>] with its three
    private members. *)
Record PosList : Type := mkPosList {
  Vector : list RowID;
  _matches_all_chunk : shared_ptr_Chunk;
  _matches_all_chunk_id : ChunkID;
  _references_single_chunk : bool
}.

#[global] Instance PosList_eq_dec : EqDecision PosList.
Proof. solve_decision. Defined.

Definition set_Vector (v : list RowID) (l : PosList) : PosList :=
  mkPosList v (_matches_all_chunk l) (_matches_all_chunk_id l) (_references_single_chunk l).

(** (1) [PosList()] *)
Definition PosList_empty : PosList := mkPosList [] nullptr INVALID_CHUNK_ID false.

(** (4), (6+), (8): a list owning the given row ids *)
Definition PosList_of_rows (v : list RowID) : PosList :=
  mkPosList v nullptr INVALID_CHUNK_ID false.

(** [void guarantee_single_chunk()] *)
Definition guarantee_single_chunk (l : PosList) : PosList :=
  mkPosList (Vector l) (_matches_all_chunk l) (_matches_all_chunk_id l) true.

(** custom ctor: [PosList(matches_all_chunk, chunkID)] *)
Definition PosList_matches_all (matches_all_chunk : shared_ptr_Chunk) (chunkID : ChunkID)
  : PosList :=
  guarantee_single_chunk (mkPosList [] matches_all_chunk chunkID false).

(** (6) [PosList(PosList&& other)]: the vector is moved, the flag copied,
    the two matches-all members take their default member initializers.
    Returns the new object and the moved-from [other]. *)
Definition PosList_move (other : PosList) : PosList * PosList :=
  (mkPosList (Vector other) nullptr INVALID_CHUNK_ID (_references_single_chunk other),
   set_Vector [] other).

Definition matches_complete_chunk (l : PosList) : bool :=
  bool_decide (_matches_all_chunk l ≠ nullptr).

Section WithStore.
Variable chunks : ChunkStore.
Variable HYRISE_DEBUG : bool.

Local Open Scope method_scope.

(** [size_t size() const] *)
Definition size (l : PosList) : size_t :=
  match _matches_all_chunk l with
  | Some p => Chunk_size (chunks p)
  | None => Vector_size (Vector l)
  end.

(** [bool empty() const] *)
Definition empty (l : PosList) : bool := bool_decide (size l = 0).

(** [void clear()] *)
Definition clear (l : PosList) : PosList :=
  mkPosList [] nullptr INVALID_CHUNK_ID (_references_single_chunk l).

(** [void _materialize()]: after the three debug assertions (and a
    [PerformanceWarning], which only logs) the vector is resized to the
    row count of the chunk, every slot is overwritten, and the sentinel is
    reset.  Reading the row count through a null pointer is undefined. *)
Definition _materialize : Method PosList unit :=
  DebugAssertM HYRISE_DEBUG (gets (λ l, bool_decide (_matches_all_chunk l ≠ nullptr)))
    "Called materialize on poslist that is already materialized" ;;;
  DebugAssertM HYRISE_DEBUG (gets (λ l, bool_decide (_matches_all_chunk_id l ≠ INVALID_CHUNK_ID)))
    "Called materialize on poslist that is already materialized" ;;;
  DebugAssertM HYRISE_DEBUG (gets (λ l, bool_decide (Vector_size (Vector l) = 0)))
    "Unexpected precondition on PosList::_materialize" ;;;
  chunk <- gets _matches_all_chunk ;;
  match chunk with
  | None => lift Undefined
  | Some p =>
      let chunk_size := Chunk_size (chunks p) in
      modify (λ l, mkPosList
                     (fill_chunk_rows (_matches_all_chunk_id l) 0 (N.to_nat chunk_size))
                     nullptr INVALID_CHUNK_ID (_references_single_chunk l))
  end.

(** [void _materialize_if_necessary()] *)
Definition _materialize_if_necessary : Method PosList unit :=
  m <- gets matches_complete_chunk ;;
  if m then _materialize else ret tt.

(** [const_reference operator[](size_type n) const] *)
Definition operator_index (n : size_t) : Method PosList RowID :=
  _materialize_if_necessary ;;;
  v <- gets Vector ;;
  lift (Vector_index v n).

(** [cbegin() const] and [cend() const]; a [Vector::const_iterator] is
    the position it points at. *)
Definition cbegin : Method PosList nat :=
  _materialize_if_necessary ;;; ret 0%nat.

Definition cend : Method PosList nat :=
  _materialize_if_necessary ;;; gets (λ l, length (Vector l)).

(** The lambda inside the [DebugAssert] of [references_single_chunk]. *)
Definition single_chunk_scan : Method PosList bool :=
  s <- gets size ;;
  if bool_decide (s = 0) then ret true else
  first <- operator_index 0 ;;
  b <- cbegin ;;
  e <- cend ;;
  v <- gets Vector ;;
  ret (forallb (λ row_id, bool_decide (chunk_id row_id = chunk_id first))
               (take (e - b) (drop b v))).

(** [bool references_single_chunk() const] *)
Definition references_single_chunk : Method PosList bool :=
  flag <- gets _references_single_chunk ;;
  (if flag
   then DebugAssertM HYRISE_DEBUG single_chunk_scan
          "Chunk was marked as referencing only a single chunk, but references more"
   else ret tt) ;;;
  m <- gets matches_complete_chunk ;;
  (if m
   then DebugAssertM HYRISE_DEBUG (gets (λ l, bool_decide (_references_single_chunk l = true)))
          "Chunk was marked to reference a whole chunk but references_single_chunk would return false"
   else ret tt) ;;;
  gets _references_single_chunk.

(** [ChunkID common_chunk_id() const] *)
Definition common_chunk_id : Method PosList ChunkID :=
  DebugAssertM HYRISE_DEBUG references_single_chunk
    "Can only retrieve the common_chunk_id if the PosList is guaranteed to reference a single chunk." ;;;
  e <- gets empty ;;
  lift (Assert (negb e) "Cannot retrieve common_chunk_id of an empty chunk") ;;;
  m <- gets _matches_all_chunk ;;
  match m with
  | Some _ => gets _matches_all_chunk_id
  | None => r <- operator_index 0 ;; ret (chunk_id r)
  end.

(** The range-for of [matches_all_equal_to_materialized]. *)
Fixpoint rows_follow (expected_id : RowID) (materialized_list : list RowID) : bool :=
  match materialized_list with
  | [] => true
  | materialized_row_id :: rest =>
      if bool_decide (expected_id = materialized_row_id)
      then rows_follow (mkRowID (chunk_id expected_id)
                                (ChunkOffset_incr (chunk_offset expected_id))) rest
      else false
  end.

(** [matches_all_equal_to_materialized(matches_all_list, materialized_list)];
    the state is [matches_all_list]. *)
Definition matches_all_equal_to_materialized (materialized_list : list RowID)
  : Method PosList bool :=
  DebugAssertM HYRISE_DEBUG (gets matches_complete_chunk)
    "called with invalid first argument" ;;;
  s <- gets size ;;
  if negb (bool_decide (s = Vector_size materialized_list)) then ret false else
  c <- common_chunk_id ;;
  ret (rows_follow (mkRowID c 0) materialized_list).

(** [operator==(const PosList& lhs, const PosList& rhs)]; returns the
    outcome and both operands as they are after the call. *)
Definition operator_eq (lhs rhs : PosList) : Outcome bool * (PosList * PosList) :=
  if matches_complete_chunk lhs && matches_complete_chunk rhs
  then (Returns (bool_decide (_matches_all_chunk lhs = _matches_all_chunk rhs)), (lhs, rhs))
  else if matches_complete_chunk lhs
  then let '(r, lhs') := matches_all_equal_to_materialized (Vector rhs) lhs in
       (r, (lhs', rhs))
  else if matches_complete_chunk rhs
  then let '(r, rhs') := matches_all_equal_to_materialized (Vector lhs) rhs in
       (r, (lhs, rhs'))
  else (Returns (bool_decide (Vector lhs = Vector rhs)), (lhs, rhs)).

(** The logical sequence a list stands for, in the words of the
    specification: a matches-all list has as many elements as its chunk
    has rows and element [i] is [{chunk_id, i}]; otherwise the owned
    row ids. *)
Definition logical_sequence (l : PosList) : list RowID :=
  match _matches_all_chunk l with
  | Some p => (λ i, mkRowID (_matches_all_chunk_id l) (N.of_nat i))
                <$> seq 0 (N.to_nat (Chunk_size (chunks p)))
  | None => Vector l
  end.

(** The state [_materialize] leaves behind: the rows of the chunk in
    the vector, the sentinel reset. *)
Definition materialized (l : PosList) : PosList :=
  mkPosList (fill_chunk_rows (_matches_all_chunk_id l) 0 (N.to_nat (size l)))
            nullptr INVALID_CHUNK_ID (_references_single_chunk l).

(** A member that leaves the object as it found it, or materialized. *)
Definition keeps_or_materializes {A} (m : Method PosList A) : Prop :=
  ∀ l, (m l).2 = l ∨ (matches_complete_chunk l = true ∧ (m l).2 = materialized l).

(** [void push_back(const value_type& val)] (lines 804-812) *)
Definition push_back (val : RowID) : Method PosList unit :=
  _materialize_if_necessary ;;;
  modify (λ l, set_Vector (Vector l ++ [val]) l).

(** [void emplace_back(Args&&... args)] with the two members of a [RowID]
    as arguments (lines 793-797) *)
Definition emplace_back (c : ChunkID) (o : ChunkOffset) : Method PosList unit :=
  _materialize_if_necessary ;;;
  modify (λ l, set_Vector (Vector l ++ [mkRowID c o]) l).

(** [void pop_back()] (lines 799-802); [Vector::pop_back] on an empty
    vector is undefined. *)
Definition pop_back : Method PosList unit :=
  _materialize_if_necessary ;;;
  v <- gets Vector ;;
  match v with
  | [] => lift Undefined
  | _ :: _ => modify (λ l, set_Vector (removelast (Vector l)) l)
  end.

(** [Vector::max_size()]: the largest length the vector's allocator can
    serve, a [size_type] whose value the library fixes. *)
Variable max_size : size_t.

(** The [std::length_error] that [Vector::resize] throws when it is asked
    to grow beyond [max_size()].  It is a [std::logic_error] whose text is
    the library's, so it is named by its type here. *)
Definition length_error : string := "std::length_error".

(** [void resize(size_type n, const value_type& val)] (lines 819-822).
    [Vector::resize(n, val)] erases from position [n] on when [n] is at
    most the size; otherwise it appends copies of [val], after checking
    [n] against [max_size()], so that a throwing call leaves the vector as
    it was. *)
Definition resize (n : size_t) (val : RowID) : Method PosList unit :=
  _materialize_if_necessary ;;;
  v <- gets Vector ;;
  if bool_decide (n ≤ Vector_size v)
  then modify (λ l, set_Vector (take (N.to_nat n) (Vector l)) l)
  else if bool_decide (n ≤ max_size)
  then modify (λ l, set_Vector (Vector l ++ replicate (N.to_nat n - length (Vector l)) val) l)
  else lift (Fails length_error).

(** [operator==(const PosList& lhs, const pmr_vector<RowID>& rhs)]
    (lines 897-903) *)
Definition operator_eq_vector (lhs : PosList) (rhs : list RowID) : Outcome bool * PosList :=
  if matches_complete_chunk lhs
  then matches_all_equal_to_materialized rhs lhs
  else (Returns (bool_decide (Vector lhs = rhs)), lhs).

(** [operator==(const pmr_vector<RowID>& lhs, const PosList& rhs)]
    (lines 905-911) *)
Definition vector_operator_eq (lhs : list RowID) (rhs : PosList) : Outcome bool * PosList :=
  if matches_complete_chunk rhs
  then matches_all_equal_to_materialized lhs rhs
  else (Returns (bool_decide (lhs = Vector rhs)), rhs).

End WithStore.

(** What the constructor over a chunk establishes and every member keeps:
    a list that still carries the sentinel owns no rows, has a valid chunk
    id and has the single-chunk flag set. *)
Definition class_invariant (l : PosList) : Prop :=
  _matches_all_chunk l ≠ nullptr →
  Vector l = [] ∧ _matches_all_chunk_id l ≠ INVALID_CHUNK_ID ∧ _references_single_chunk l = true.

#[global] Instance class_invariant_dec l : Decision (class_invariant l).
Proof. unfold class_invariant. apply _. Defined.

End LazyPosList.

(** ** Iteration as generic code performs it *)

Module Iteration.
Import Types Assertions.

(** What generic code needs of an iterator over a container: comparison,
    dereference (which may read the container) and increment. *)
Class InputIterator (Container It : Type) : Type := {
  it_equal : It → It → Outcome bool;
  it_dereference : Container → It → Outcome RowID;
  it_increment : It → It
}.

(** The loop [for (; it != end; ++it)] with body [functor( *it )] of
    [AbstractPosList::for_each], collecting the row ids handed to the
    functor.  [None]: the loop has not finished within [fuel] rounds. *)
Fixpoint for_each `{InputIterator Container It}
    (fuel : nat) (c : Container) (it end_ : It) : option (Outcome (list RowID)) :=
  match fuel with
  | O => None
  | S fuel' =>
      match it_equal it end_ with
      | Returns true => Some (Returns [])
      | Returns false =>
          match it_dereference c it with
          | Returns r =>
              match for_each fuel' c (it_increment it) end_ with
              | Some (Returns rest) => Some (Returns (r :: rest))
              | other => other
              end
          | Fails msg => Some (Fails msg)
          | Undefined => Some Undefined
          end
      | Fails msg => Some (Fails msg)
      | Undefined => Some Undefined
      end
  end.

End Iteration.

(** ** pos_list.hpp, first and second revision: the iterator wrapper
       (lines 1-257 and 259-552) *)

Module IteratorWrapperPosList.
Import Types Assertions Iteration.

Record PosList : Type := mkPosList {
  Vector : list RowID;
  _matches_all_chunk : shared_ptr_Chunk;
  _chunk_id : ChunkID;
  _references_single_chunk : bool
}.

(** (4), (6+), (8): a list owning the given row ids; [_chunk_id] has no
    initializer in these constructors, so its value is the caller's to name. *)
Definition PosList_of_rows (v : list RowID) (uninitialized : ChunkID) : PosList :=
  mkPosList v nullptr uninitialized false.

(** custom ctor: [PosList(matches_all_chunk, chunkID)] *)
Definition PosList_matches_all (matches_all_chunk : shared_ptr_Chunk) (chunkID : ChunkID)
  : PosList :=
  mkPosList [] matches_all_chunk chunkID true.

(** [using Vector::size;] and [using Vector::operator[];] *)
Definition size (l : PosList) : size_t := Vector_size (Vector l).
Definition operator_index (l : PosList) (n : size_t) : Outcome RowID :=
  Vector_index (Vector l) n.

(** [class MatchesAllIterator] *)
Record MatchesAllIterator : Type := mkMatchesAllIterator { _current_row_id : RowID }.

Definition MatchesAllIterator_incr (it : MatchesAllIterator) : MatchesAllIterator :=
  mkMatchesAllIterator
    (mkRowID (chunk_id (_current_row_id it))
             (ChunkOffset_incr (chunk_offset (_current_row_id it)))).

Definition MatchesAllIterator_eq (it other : MatchesAllIterator) : bool :=
  bool_decide (_current_row_id it = _current_row_id other).

(** [class iterator]: exactly one of its two owning pointers is set by
    its constructors; a [Vector::iterator] is the position it points at. *)
Inductive iterator : Type :=
| _vector_base_it (position : nat)
| _matches_all_base_it (base : MatchesAllIterator).

(** [bool operator==(iterator& other)]: dereferences the pointer of
    [other] that corresponds to the one set in [*this]. *)
Definition iterator_eq (it other : iterator) : Outcome bool :=
  match it, other with
  | _vector_base_it i, _vector_base_it j => Returns (bool_decide (i = j))
  | _matches_all_base_it a, _matches_all_base_it b => Returns (MatchesAllIterator_eq a b)
  | _, _ => Undefined
  end.

(** [const RowID& operator*()] *)
Definition iterator_deref (l : PosList) (it : iterator) : Outcome RowID :=
  match it with
  | _vector_base_it i => Vector_index (Vector l) (N.of_nat i)
  | _matches_all_base_it a => Returns (_current_row_id a)
  end.

(** [iterator& operator++()] *)
Definition iterator_incr (it : iterator) : iterator :=
  match it with
  | _vector_base_it i => _vector_base_it (S i)
  | _matches_all_base_it a => _matches_all_base_it (MatchesAllIterator_incr a)
  end.

#[global] Instance iterator_InputIterator : InputIterator PosList iterator := {
  it_equal := iterator_eq;
  it_dereference := iterator_deref;
  it_increment := iterator_incr
}.

Section WithStore.
Variable chunks : ChunkStore.

(** [iterator begin()] *)
Definition begin (l : PosList) : iterator :=
  match _matches_all_chunk l with
  | Some _ => _matches_all_base_it (mkMatchesAllIterator (mkRowID (_chunk_id l) 0))
  | None => _vector_base_it 0
  end.

(** [iterator end()] of the first revision (lines 198-204): the vector
    branch wraps [Vector::begin()]. *)
Definition end_ (l : PosList) : iterator :=
  match _matches_all_chunk l with
  | Some p =>
      _matches_all_base_it (mkMatchesAllIterator (mkRowID (_chunk_id l) (Chunk_size (chunks p))))
  | None => _vector_base_it 0
  end.

(** [iterator end() noexcept] of the second revision (lines 483-489): the
    vector branch wraps [Vector::end()]. *)
Definition end_second_revision (l : PosList) : iterator :=
  match _matches_all_chunk l with
  | Some p =>
      _matches_all_base_it (mkMatchesAllIterator (mkRowID (_chunk_id l) (Chunk_size (chunks p))))
  | None => _vector_base_it (length (Vector l))
  end.

End WithStore.

(** [using Vector::empty;] *)
Definition empty (l : PosList) : bool := bool_decide (Vector l = []).

(** [operator==(const PosList& lhs, const PosList& rhs)] of both revisions
    (lines 245-247, 540-542): the two vectors are compared. *)
Definition operator_eq (lhs rhs : PosList) : bool :=
  bool_decide (Vector lhs = Vector rhs).

Section WithBuild.
Variable HYRISE_DEBUG : bool.

(** The lambda inside the [DebugAssert] of [references_single_chunk];
    [size()], [operator[]], [cbegin()] and [cend()] are the vector's. *)
Definition single_chunk_scan (l : PosList) : Outcome bool :=
  if bool_decide (size l = 0) then Returns true else
  first ← operator_index l 0;
  Returns (forallb (λ row_id, bool_decide (chunk_id row_id = chunk_id first)) (Vector l)).

(** [bool references_single_chunk() const] (lines 158-170, 443-455) *)
Definition references_single_chunk (l : PosList) : Outcome bool :=
  (if _references_single_chunk l
   then DebugAssert HYRISE_DEBUG (single_chunk_scan l)
          "Chunk was marked as referencing only a single chunk, but references more"
   else Returns tt) ;;
  Returns (_references_single_chunk l).

(** [ChunkID common_chunk_id() const] (lines 173-178, 458-463) *)
Definition common_chunk_id (l : PosList) : Outcome ChunkID :=
  DebugAssert HYRISE_DEBUG (references_single_chunk l)
    "Can only retrieve the common_chunk_id if the PosList is guaranteed to reference a single chunk." ;;
  Assert (negb (empty l)) "Cannot retrieve common_chunk_id of an empty chunk" ;;
  r ← operator_index l 0;
  Returns (chunk_id r).

End WithBuild.
End IteratorWrapperPosList.

(** ** abstract_pos_list.hpp: [AbstractPosList] and the materialized [PosList] *)

Module AbstractPosListHpp.
Import Types Assertions.

(** [class PosList : public AbstractPosList, private pmr_vector<RowID>] *)
Record PosList : Type := mkPosList {
  Vector : list RowID;
  _references_single_chunk : bool
}.

(** The dynamic type behind a [const AbstractPosList&]: [PosList] is the
    only class of this header (and the only one [resolve_pos_list_type]
    accepts). *)
Inductive AbstractPosList : Type :=
| dynamic_PosList (l : PosList).

Definition PosList_of_rows (v : list RowID) : PosList := mkPosList v false.

(** [void guarantee_single_chunk()] *)
Definition guarantee_single_chunk (l : PosList) : PosList := mkPosList (Vector l) true.

(** [size_t size() const override], [bool empty() const override] *)
Definition size (l : PosList) : size_t := Vector_size (Vector l).
Definition empty (l : PosList) : bool := bool_decide (Vector l = []).

(** [RowID operator[](size_t n) const override] *)
Definition operator_index (l : PosList) (n : size_t) : Outcome RowID :=
  Vector_index (Vector l) n.

(** [sizeof(Vector::value_type)]: a [RowID] is two 32-bit words. *)
Definition sizeof_RowID : N := 8.

(** [size_t memory_usage(const MemoryUsageCalculationMode mode) const override];
    the product is a [size_t]. *)
Definition memory_usage (l : PosList) (mode : MemoryUsageCalculationMode) : size_t :=
  (size l * sizeof_RowID) mod 2 ^ 64.

(** [bool operator==(const PosList& other) const] *)
Definition operator_eq_PosList (l other : PosList) : bool :=
  bool_decide (Vector l = Vector other).

(** [bool operator==(const AbstractPosList& other) const override] is
    [return other == *this;]: [other] is an [AbstractPosList], so the call
    is the virtual [operator==(const AbstractPosList&)] of [other] with
    [*this] as its argument.  [None]: no result within [fuel] calls. *)
Fixpoint operator_eq (fuel : nat) (this : PosList) (other : AbstractPosList) : option bool :=
  match fuel with
  | O => None
  | S fuel' =>
      match other with
      | dynamic_PosList o => operator_eq fuel' o (dynamic_PosList this)
      end
  end.

Section WithBuild.
Variable HYRISE_DEBUG : bool.

(** The lambda inside the [DebugAssert] of [references_single_chunk]. *)
Definition single_chunk_scan (l : PosList) : Outcome bool :=
  if bool_decide (size l = 0) then Returns true else
  first ← operator_index l 0;
  Returns (forallb (λ row_id, bool_decide (chunk_id row_id = chunk_id first)) (Vector l)).

(** [bool references_single_chunk() const override] *)
Definition references_single_chunk (l : PosList) : Outcome bool :=
  (if _references_single_chunk l
   then DebugAssert HYRISE_DEBUG (single_chunk_scan l)
          "Chunk was marked as referencing only a single chunk, but references more"
   else Returns tt) ;;
  Returns (_references_single_chunk l).

(** [ChunkID common_chunk_id() const override] *)
Definition common_chunk_id (l : PosList) : Outcome ChunkID :=
  DebugAssert HYRISE_DEBUG (references_single_chunk l)
    "Can only retrieve the common_chunk_id if the PosList is guaranteed to reference a single chunk." ;;
  Assert (negb (empty l)) "Cannot retrieve common_chunk_id of an empty chunk" ;;
  r ← operator_index l 0;
  Returns (chunk_id r).

End WithBuild.
End AbstractPosListHpp.

(** ** [MatchesAllPosList] and the [AbstractPosList] revision with the
       [PosListIterator] facade (the unnamed header, lines 1-161) *)

Module MatchesAllPosListHpp.
Import Types Assertions Iteration.

(** [class MatchesAllPosList : public AbstractPosList] *)
Record MatchesAllPosList : Type := mkMatchesAllPosList {
  _common_chunk : shared_ptr_Chunk;
  _common_chunk_id : ChunkID
}.

(** What a [const AbstractPosList*] may point at in this revision: a
    [MatchesAllPosList], or the forward-declared materialized [PosList]
    with the row ids it owns. *)
Inductive AbstractPosList : Type :=
| dynamic_MatchesAllPosList (m : MatchesAllPosList)
| dynamic_PosList (rows : list RowID).

(** [bool references_single_chunk() const override final] *)
Definition references_single_chunk (m : MatchesAllPosList) : bool := true.

(** [bool operator==(const MatchesAllPosList* other) const final] *)
Definition operator_eq_MatchesAllPosList (m other : MatchesAllPosList) : bool :=
  bool_decide (_common_chunk m = _common_chunk other).

(** [bool operator==(const AbstractPosList* other) const override final]:
    the body is a TODO followed by [return false;]. *)
Definition operator_eq (m : MatchesAllPosList) (other : AbstractPosList) : bool := false.

(** [class PosListIterator]; [_pl_pointer] is the address of the list. *)
Record PosListIterator : Type := mkPosListIterator {
  _pl_pointer : address;
  _chunk_offset : ChunkOffset;
  _max_size : ChunkOffset
}.

(** [void increment()], [void decrement()], [void advance(std::ptrdiff_t n)] *)
Definition increment (it : PosListIterator) : PosListIterator :=
  mkPosListIterator (_pl_pointer it) (ChunkOffset_incr (_chunk_offset it)) (_max_size it).

Definition decrement (it : PosListIterator) : PosListIterator :=
  mkPosListIterator (_pl_pointer it)
    (to_ChunkOffset (_chunk_offset it + ChunkOffset_modulus - 1)) (_max_size it).

Definition advance (it : PosListIterator) (n : Z) : PosListIterator :=
  mkPosListIterator (_pl_pointer it)
    (Z.to_N ((Z.of_N (_chunk_offset it) + n) mod Z.of_N ChunkOffset_modulus)%Z)
    (_max_size it).

(** [std::ptrdiff_t distance_to(const PosListIterator& other) const] *)
Definition distance_to (it other : PosListIterator) : Z :=
  (Z.of_N (_chunk_offset other) - Z.of_N (_chunk_offset it))%Z.

Section WithStore.
Variable chunks : ChunkStore.
Variable HYRISE_DEBUG : bool.

(** [ChunkID common_chunk_id() const override final] *)
Definition common_chunk_id (m : MatchesAllPosList) : Outcome ChunkID :=
  DebugAssert HYRISE_DEBUG (Returns (bool_decide (_common_chunk_id m ≠ INVALID_CHUNK_ID)))
    "common_chunk_id called on invalid chunk id" ;;
  Returns (_common_chunk_id m).

(** [RowID operator[](size_t n) const override final] *)
Definition operator_index (m : MatchesAllPosList) (n : size_t) : Outcome RowID :=
  DebugAssert HYRISE_DEBUG (Returns (bool_decide (_common_chunk_id m ≠ INVALID_CHUNK_ID)))
    "operator[] called on invalid chunk id" ;;
  Returns (mkRowID (_common_chunk_id m) (to_ChunkOffset n)).

(** [size_t size() const override final]: [_common_chunk->size()]. *)
Definition size (m : MatchesAllPosList) : Outcome size_t :=
  match _common_chunk m with
  | Some p => Returns (Chunk_size (chunks p))
  | None => Undefined
  end.

(** [bool empty() const override final] *)
Definition empty (m : MatchesAllPosList) : Outcome bool :=
  s ← size m; Returns (bool_decide (s = 0)).

(** [bool equal(const PosListIterator& other) const] *)
Definition equal (it other : PosListIterator) : Outcome bool :=
  DebugAssert HYRISE_DEBUG (Returns (bool_decide (_pl_pointer it = _pl_pointer other)))
    "You trusted me and I failed you." ;;
  Returns (bool_decide (_chunk_offset other = _chunk_offset it)).

(** [DereferenceReturnType dereference() const]; [pos_lists] maps the
    address held by the iterator to the list found there. *)
Definition dereference (pos_lists : address → MatchesAllPosList) (it : PosListIterator)
  : Outcome RowID :=
  DebugAssert HYRISE_DEBUG (Returns (bool_decide (_chunk_offset it < _max_size it)))
    "You foool" ;;
  operator_index (pos_lists (_pl_pointer it)) (_chunk_offset it).

#[local] Instance PosListIterator_InputIterator
  : InputIterator (address → MatchesAllPosList) PosListIterator := {
  it_equal := equal;
  it_dereference := dereference;
  it_increment := increment
}.

(** [begin() const] and [end() const] of the list at address [this]. *)
Definition begin (this : address) (m : MatchesAllPosList) : Outcome PosListIterator :=
  s ← size m;
  Returns (mkPosListIterator this 0 (to_ChunkOffset s)).

Definition end_ (this : address) (m : MatchesAllPosList) : Outcome PosListIterator :=
  s ← size m;
  Returns (mkPosListIterator this (to_ChunkOffset s) (to_ChunkOffset s)).

(** Iterating the list at [this] from [begin()] to [end()]. *)
Definition iterate (fuel : nat) (pos_lists : address → MatchesAllPosList) (this : address)
  : option (Outcome (list RowID)) :=
  match begin this (pos_lists this), end_ this (pos_lists this) with
  | Returns b, Returns e => for_each fuel pos_lists b e
  | Returns _, Fails msg | Fails msg, _ => Some (Fails msg)
  | _, _ => Some Undefined
  end.

End WithStore.

(** [sizeof *this]: the vtable pointer, the shared pointer (two words)
    and the chunk id, padded to the alignment of a pointer (LP64). *)
Definition sizeof_MatchesAllPosList : N := 32.

(** [size_t memory_usage(const MemoryUsageCalculationMode) const override final] *)
Definition memory_usage (m : MatchesAllPosList) (mode : MemoryUsageCalculationMode) : size_t :=
  sizeof_MatchesAllPosList.

End MatchesAllPosListHpp.

(** ** pos_lists/single_chunk_pos_list.hpp (lines 1-61) and its revision
       with out-of-line members (the unnamed sources, lines 44-113) *)

Module SingleChunkPosListHpp.
Import Types Assertions.

(** Modelled from the spec: [storage/index/abstract_index.hpp] is not part
    of the sources at hand.  An [AbstractIndex::Iterator] is an opaque
    forward iterator over the index's internal offset sequence: here the
    position it points at, or the value-initialized iterator that points
    into no sequence. *)
Inductive Iterator : Type :=
| value_initialized
| at_position (i : nat).

(** [class SingleChunkPosList final : public AbstractPosList]; the list
    borrows its range from the index. *)
Record SingleChunkPosList : Type := mkSingleChunkPosList {
  range_begin : Iterator;
  range_end : Iterator;
  _chunk_id : ChunkID
}.

(** [SingleChunkPosList(ChunkID chunkID)] *)
Definition SingleChunkPosList_ctor (chunkID : ChunkID) : SingleChunkPosList :=
  mkSingleChunkPosList value_initialized value_initialized chunkID.

(** [range_begin == range_end]; comparing iterators of different
    sequences is undefined. *)
Definition empty (l : SingleChunkPosList) : Outcome bool :=
  match range_begin l, range_end l with
  | value_initialized, value_initialized => Returns true
  | at_position b, at_position e => Returns (bool_decide (b = e))
  | _, _ => Undefined
  end.

(** [std::distance(range_begin, range_end)], converted to [size_t]. *)
Definition size (l : SingleChunkPosList) : Outcome size_t :=
  match range_begin l, range_end l with
  | value_initialized, value_initialized => Returns 0
  | at_position b, at_position e =>
      Returns (Z.to_N ((Z.of_nat e - Z.of_nat b) mod 2 ^ 64)%Z)
  | _, _ => Undefined
  end.

(** [bool references_single_chunk() const override final] *)
Definition references_single_chunk (l : SingleChunkPosList) : bool := true.

(** [ChunkID common_chunk_id() const override final] *)
Definition common_chunk_id (l : SingleChunkPosList) : Outcome ChunkID :=
  Returns (_chunk_id l).

(** [RowID operator[](size_t n) const override final]:
    [RowID{_chunk_id, *(std::next(range_begin, n))}], an unchecked read of
    the index's offset sequence [index_offsets]. *)
Definition operator_index (index_offsets : list ChunkOffset)
    (l : SingleChunkPosList) (n : size_t) : Outcome RowID :=
  match range_begin l with
  | value_initialized => Undefined
  | at_position b =>
      o ← Vector_index index_offsets (N.of_nat b + n);
      Returns (mkRowID (_chunk_id l) o)
  end.

(** A range handed over by an index scan: both iterators point into the
    index's offset sequence, in order, and the sequence fits the address
    space; or both are still value-initialized. *)
Definition valid_range (index_offsets : list ChunkOffset) (l : SingleChunkPosList) : Prop :=
  match range_begin l, range_end l with
  | value_initialized, value_initialized => True
  | at_position b, at_position e =>
      (b ≤ e ≤ length index_offsets)%nat ∧ (Z.of_nat (length index_offsets) < 2 ^ 64)%Z
  | _, _ => False
  end.

(** Sizes of the LP64 data model: a pointer, and the object itself (the
    vtable pointer, two iterators of one word each and the chunk id,
    padded to the alignment of a pointer). *)
Definition sizeof_pointer : N := 8.
Definition sizeof_SingleChunkPosList : N := 32.

(** [memory_usage] of single_chunk_pos_list.hpp: [return sizeof(this);] *)
Definition memory_usage (l : SingleChunkPosList) (mode : MemoryUsageCalculationMode)
  : size_t := sizeof_pointer.

(** [memory_usage] of the out-of-line revision: [return sizeof( *this );] *)
Definition memory_usage_out_of_line (l : SingleChunkPosList)
    (mode : MemoryUsageCalculationMode) : size_t := sizeof_SingleChunkPosList.

End SingleChunkPosListHpp.

(** ** viz_record_layout.cpp (single_chunk_pos_list.hpp, lines 63-122) *)

Module VizRecordLayoutCpp.
Import Stdlib.Strings.Ascii.

(** The characters [escape] puts a backslash in front of. *)
Definition is_special (c : ascii) : bool :=
  match c with
  | "<" | ">" | "{" | "}" | "|" | "[" | "]" => true
  | _ => false
  end%char.

(** [std::string VizRecordLayout::escape(const std::string& input)] *)
Fixpoint escape (input : string) : string :=
  match input with
  | EmptyString => EmptyString
  | String c rest =>
      if is_special c
      then String "\" (String c (escape rest))
      else String c (escape rest)
  end.

(** [struct VizRecordLayout] with its member
    [std::vector<std::variant<std::string, VizRecordLayout>> content]. *)
#[warnings="-register-all"]
Inductive VizRecordLayout : Type :=
| mkVizRecordLayout (content : list (string + VizRecordLayout)).

Definition content (layout : VizRecordLayout) : list (string + VizRecordLayout) :=
  match layout with mkVizRecordLayout c => c end.

(** [VizRecordLayout& add_label(const std::string& label)] *)
Definition add_label (label : string) (layout : VizRecordLayout) : VizRecordLayout :=
  mkVizRecordLayout (content layout ++ [inl (escape label)]).

(** [VizRecordLayout& add_sublayout()]: the layout after the call; the
    reference returned designates its last element. *)
Definition add_sublayout (layout : VizRecordLayout) : VizRecordLayout :=
  mkVizRecordLayout (content layout ++ [inr (mkVizRecordLayout [])]).

(** [std::string to_label_string() const] *)
Fixpoint to_label_string (layout : VizRecordLayout) : string :=
  match layout with
  | mkVizRecordLayout content =>
      "{" +:+
      (fix elements (rest : list (string + VizRecordLayout)) : string :=
         match rest with
         | [] => ""
         | element :: rest' =>
             match element with
             | inl label => label
             | inr sublayout => to_label_string sublayout
             end
             +:+ match rest' with [] => "" | _ :: _ => " | " end
             +:+ elements rest'
         end) content
      +:+ "}"
  end.

(** What [to_label_string] writes for one element of [content]. *)
Definition element_string (element : string + VizRecordLayout) : string :=
  match element with
  | inl label => label
  | inr sublayout => to_label_string sublayout
  end.

End VizRecordLayoutCpp.

(** ** counting_quotient_filter.cpp (the unnamed source, lines 1-126) *)

Module CountingQuotientFilterCpp.
Import Types Assertions.

(** The alternative held by [_quotient_filter] *)
Inductive quotient_filter : Type := gqf2 | gqf4 | gqf8 | gqf16 | gqf32.

(** The members the constructor sets itself. *)
Record CountingQuotientFilter : Type := mkCountingQuotientFilter {
  _hash_bits : N;
  _quotient_filter : quotient_filter
}.

(** [CountingQuotientFilter(quotient_size, remainder_size)], up to the
    call of [qf_init] from the filter library: the sum of two [size_t] is
    a [size_t]; [is_floating_point] is the trait of the element type. *)
Definition CountingQuotientFilter_ctor (is_floating_point : bool)
    (quotient_size remainder_size : size_t) : Outcome CountingQuotientFilter :=
  let hash_bits := (quotient_size + remainder_size) mod 2 ^ 64 in
  Assert (bool_decide (0 < quotient_size)) "Quotient size can not be zero." ;;
  Assert (bool_decide (hash_bits ≤ 64)) "Hash length can not exceed 64 bits." ;;
  Assert (negb is_floating_point) "Quotient filters do not support floating point types." ;;
  filter ← (if bool_decide (remainder_size = 2) then Returns gqf2
            else if bool_decide (remainder_size = 4) then Returns gqf4
            else if bool_decide (remainder_size = 8) then Returns gqf8
            else if bool_decide (remainder_size = 16) then Returns gqf16
            else if bool_decide (remainder_size = 32) then Returns gqf32
            else Fails "Invalid remainder_size");
  Returns (mkCountingQuotientFilter hash_bits filter).

(** [get_hash_bits(value, bit_count)] on the value [hash] of
    [std::hash<ElementType>{}(value)]: a 64-bit product, shifted right by
    the 64-bit difference [64 - bit_count]; a shift by 64 or more is
    undefined. *)
Definition get_hash_bits (hash : N) (bit_count : N) : Outcome N :=
  let shift := (64 + 2 ^ 64 - bit_count mod 2 ^ 64) mod 2 ^ 64 in
  if bool_decide (shift < 64)
  then Returns (N.shiftr ((hash * 11400714819323198485) mod 2 ^ 64) shift)
  else Undefined.

End CountingQuotientFilterCpp.

(** ** Concrete chunks and lists used in the examples *)

Module Examples.
Import Types.

(** Chunks of 5, 3, 3 rows at the addresses 1, 2, 3; chunks without rows
    everywhere else. *)
Definition example_chunks : ChunkStore := λ a,
  if bool_decide (a = 1) then mkChunk 5
  else if bool_decide (a = 2) then mkChunk 3
  else if bool_decide (a = 3) then mkChunk 3
  else mkChunk 0.

(** The offsets 10..19 held by an index. *)
Definition example_index : list ChunkOffset := [10; 11; 12; 13; 14; 15; 16; 17; 18; 19].

(** Lazily materializing lists: all of the 5-row chunk with id 2; all of
    either 3-row chunk with id 0; all of a 3-row chunk with id 7 and the
    same rows spelled out. *)
Definition lazy_all_of_chunk_2 : LazyPosList.PosList :=
  LazyPosList.PosList_matches_all (Some 1) 2.
Definition lazy_all_of_first_chunk_0 : LazyPosList.PosList :=
  LazyPosList.PosList_matches_all (Some 2) 0.
Definition lazy_all_of_second_chunk_0 : LazyPosList.PosList :=
  LazyPosList.PosList_matches_all (Some 3) 0.
Definition lazy_all_of_chunk_7 : LazyPosList.PosList :=
  LazyPosList.PosList_matches_all (Some 2) 7.
Definition lazy_rows_of_chunk_7 : LazyPosList.PosList :=
  LazyPosList.PosList_of_rows [mkRowID 7 0; mkRowID 7 1; mkRowID 7 2].

(** A [MatchesAllPosList] over the 5-row chunk with id 2 (scenario A of
    the specification) and one over a 3-row chunk with id 0. *)
Definition matches_all_scenario_A : MatchesAllPosListHpp.MatchesAllPosList :=
  MatchesAllPosListHpp.mkMatchesAllPosList (Some 1) 2.
Definition matches_all_chunk_0 : MatchesAllPosListHpp.MatchesAllPosList :=
  MatchesAllPosListHpp.mkMatchesAllPosList (Some 2) 0.

(** A range over chunk 4 spanning the first 7 offsets of the index
    (scenario E), and a list over chunk 4 whose range was never set. *)
Definition range_scenario_E : SingleChunkPosListHpp.SingleChunkPosList :=
  SingleChunkPosListHpp.mkSingleChunkPosList
    (SingleChunkPosListHpp.at_position 0) (SingleChunkPosListHpp.at_position 7) 4.
Definition range_never_set : SingleChunkPosListHpp.SingleChunkPosList :=
  SingleChunkPosListHpp.SingleChunkPosList_ctor 4.

(** Materialized lists of abstract_pos_list.hpp: two rows of chunk 0;
    rows of chunks 0 and 1 with the guarantee given nevertheless. *)
Definition two_rows_of_chunk_0 : AbstractPosListHpp.PosList :=
  AbstractPosListHpp.PosList_of_rows [mkRowID 0 0; mkRowID 0 1].
Definition wrongly_guaranteed : AbstractPosListHpp.PosList :=
  AbstractPosListHpp.guarantee_single_chunk
    (AbstractPosListHpp.PosList_of_rows [mkRowID 0 0; mkRowID 1 0]).

(** A list of the first revision of pos_list.hpp owning two rows. *)
Definition wrapped_two_rows : IteratorWrapperPosList.PosList :=
  IteratorWrapperPosList.PosList_of_rows [mkRowID 0 0; mkRowID 0 1] 0.

End Examples.

(** * Properties *)

Import Types Assertions.

(** ** Arithmetic of chunk offsets and the rows of a chunk *)

Lemma to_ChunkOffset_small n : n < ChunkOffset_modulus → to_ChunkOffset n = n.
Proof. intros. unfold to_ChunkOffset. by apply N.mod_small. Qed.

Lemma to_ChunkOffset_bound n : to_ChunkOffset n < ChunkOffset_modulus.
Proof. unfold to_ChunkOffset. apply N.mod_lt. done. Qed.

Lemma Chunk_size_bound c : Chunk_size c < ChunkOffset_modulus.
Proof. apply to_ChunkOffset_bound. Qed.

Lemma length_fill_chunk_rows c o n : length (fill_chunk_rows c o n) = n.
Proof. revert o. induction n as [|n IH]; intros o; simpl; [done|]. by rewrite IH. Qed.

Lemma lookup_fill_chunk_rows c o n (i : nat) :
  (i < n)%nat → o + N.of_nat n ≤ ChunkOffset_modulus →
  fill_chunk_rows c o n !! i = Some (mkRowID c (o + N.of_nat i)).
Proof.
  revert o i. induction n as [|n IH]; intros o i Hi Hb; [lia|].
  destruct i as [|i]; simpl.
  - by rewrite N.add_0_r.
  - rewrite IH; [|lia|].
    + unfold ChunkOffset_incr. rewrite to_ChunkOffset_small by lia.
      do 2 f_equal. lia.
    + unfold ChunkOffset_incr. rewrite to_ChunkOffset_small by lia. lia.
Qed.

Lemma fill_chunk_rows_enumerates c n :
  N.of_nat n ≤ ChunkOffset_modulus →
  fill_chunk_rows c 0 n = (λ i, mkRowID c (N.of_nat i)) <$> seq 0 n.
Proof.
  intros Hb. apply list_eq. intros i.
  destruct (decide (i < n)%nat) as [Hi|Hi].
  - rewrite lookup_fill_chunk_rows by lia.
    rewrite list_lookup_fmap, lookup_seq_lt by done. done.
  - rewrite !lookup_ge_None_2; [done| |].
    + rewrite length_fmap, length_seq. lia.
    + rewrite length_fill_chunk_rows. lia.
Qed.

(** ** Facts about the lazily materializing [PosList] *)

Module LazyFacts.
Import LazyPosList.

Section WithStore.
Variable chunks : ChunkStore.

Abbreviation size := (size chunks).
Abbreviation materialized := (materialized chunks).
Abbreviation logical_sequence := (logical_sequence chunks).

Lemma matches_complete_chunk_true l :
  matches_complete_chunk l = true ↔ ∃ p, _matches_all_chunk l = Some p.
Proof.
  unfold matches_complete_chunk, nullptr. rewrite bool_decide_eq_true.
  destruct (_matches_all_chunk l) as [p|]; split; try done.
  - by exists p.
  - by intros [p Hp].
Qed.

Lemma matches_complete_chunk_false l :
  matches_complete_chunk l = false ↔ _matches_all_chunk l = None.
Proof.
  unfold matches_complete_chunk, nullptr. rewrite bool_decide_eq_false.
  destruct (_matches_all_chunk l); split; try done.
  - intros Hn. by destruct Hn.
  - intros _ Hn. by apply Hn.
Qed.

Lemma size_bound l : _matches_all_chunk l ≠ None → size l < ChunkOffset_modulus.
Proof.
  unfold size. destruct (_matches_all_chunk l); [|done].
  intros _. apply Chunk_size_bound.
Qed.

Lemma materialized_plain l : matches_complete_chunk (materialized l) = false.
Proof. done. Qed.

Lemma size_materialized l : size (materialized l) = size l.
Proof.
  unfold LazyPosList.size at 1. simpl. unfold Vector_size.
  rewrite length_fill_chunk_rows. lia.
Qed.

(** The vector written by [_materialize] is the logical sequence the
    sentinel stood for. *)
Lemma logical_sequence_sentinel l p :
  _matches_all_chunk l = Some p →
  logical_sequence l = fill_chunk_rows (_matches_all_chunk_id l) 0 (N.to_nat (size l)).
Proof.
  intros Hp. unfold LazyPosList.logical_sequence, LazyPosList.size. rewrite Hp.
  rewrite fill_chunk_rows_enumerates; [done|].
  pose proof (Chunk_size_bound (chunks p)). lia.
Qed.


Lemma logical_sequence_plain l :
  matches_complete_chunk l = false → logical_sequence l = Vector l.
Proof.
  intros Hp%matches_complete_chunk_false.
  unfold LazyPosList.logical_sequence. by rewrite Hp.
Qed.

(** *** What each member returns and leaves behind *)

Lemma materialize_if_necessary_plain dbg l :
  matches_complete_chunk l = false →
  _materialize_if_necessary chunks dbg l = (Returns tt, l).
Proof.
  intros Hl. unfold _materialize_if_necessary, bind, gets. simpl. by rewrite Hl.
Qed.

Lemma materialize_if_necessary_sentinel dbg l :
  matches_complete_chunk l = true →
  dbg = false ∨ class_invariant l →
  _materialize_if_necessary chunks dbg l = (Returns tt, materialized l).
Proof.
  intros Hl Hinv.
  destruct (matches_complete_chunk_true l) as [[p Hp] _]; [done|].
  unfold _materialize_if_necessary, bind, gets. simpl. rewrite Hl.
  unfold _materialize, DebugAssertM, bind, gets, lift, modify, ret,
    LazyPosList.materialized, LazyPosList.size.
  destruct dbg.
  - destruct Hinv as [|Hinv]; [done|].
    destruct Hinv as (Hv & Hid & _); [by rewrite Hp|].
    rewrite Hp, Hv. simpl.
    rewrite (bool_decide_eq_true_2 _ Hid). simpl. done.
  - by rewrite Hp.
Qed.

Lemma operator_index_plain dbg l n :
  matches_complete_chunk l = false →
  operator_index chunks dbg n l = (Vector_index (Vector l) n, l).
Proof.
  intros Hl. unfold operator_index, bind.
  rewrite materialize_if_necessary_plain by done. simpl.
  unfold lift. by destruct (Vector_index (Vector l) n).
Qed.

Lemma operator_index_sentinel dbg l n :
  matches_complete_chunk l = true →
  dbg = false ∨ class_invariant l →
  operator_index chunks dbg n l
  = (Vector_index (Vector (materialized l)) n, materialized l).
Proof.
  intros Hl Hinv. unfold operator_index, bind.
  rewrite materialize_if_necessary_sentinel by done. simpl.
  unfold lift. by destruct (Vector_index _ n).
Qed.

(** The logical sequence of the specification is what [size()] counts
    and [operator[]] reads. *)
Lemma size_logical_sequence l : size l = Vector_size (logical_sequence l).
Proof.
  unfold LazyPosList.size, LazyPosList.logical_sequence, Vector_size.
  destruct (_matches_all_chunk l); [|done].
  rewrite length_fmap, length_seq. lia.
Qed.

Lemma operator_index_logical_sequence dbg l n :
  dbg = false ∨ class_invariant l →
  (operator_index chunks dbg n l).1 = Vector_index (logical_sequence l) n.
Proof.
  intros Hinv. destruct (matches_complete_chunk l) eqn:Hl.
  - rewrite operator_index_sentinel by done.
    destruct (matches_complete_chunk_true l) as [[p Hp] _]; [done|].
    by rewrite (logical_sequence_sentinel l p Hp).
  - rewrite operator_index_plain by done. by rewrite logical_sequence_plain.
Qed.

Lemma cbegin_plain dbg l :
  matches_complete_chunk l = false → cbegin chunks dbg l = (Returns 0%nat, l).
Proof.
  intros Hl. unfold cbegin, bind. by rewrite materialize_if_necessary_plain.
Qed.

Lemma cend_plain dbg l :
  matches_complete_chunk l = false →
  cend chunks dbg l = (Returns (length (Vector l)), l).
Proof.
  intros Hl. unfold cend, bind. by rewrite materialize_if_necessary_plain.
Qed.




Lemma forallb_fill_chunk_rows c o n :
  forallb (λ row_id, bool_decide (chunk_id row_id = c)) (fill_chunk_rows c o n) = true.
Proof.
  revert o. induction n as [|n IH]; intros o; simpl; [done|].
  rewrite IH. by rewrite bool_decide_eq_true_2.
Qed.

Lemma rows_follow_spec c o v :
  rows_follow (mkRowID c o) v = bool_decide (v = fill_chunk_rows c o (length v)).
Proof.
  revert o. induction v as [|r v IH]; intros o; simpl; [done|].
  case_bool_decide as Hr.
  - subst r. simpl. rewrite IH.
    apply bool_decide_ext. split; [by intros <-|by intros [= <-]].
  - symmetry. apply bool_decide_eq_false_2. intros [= Hr' _]. by apply Hr.
Qed.

Lemma single_chunk_scan_plain dbg l :
  matches_complete_chunk l = false →
  single_chunk_scan chunks dbg l
  = (Returns match Vector l with
             | [] => true
             | first :: _ =>
                 forallb (λ row_id, bool_decide (chunk_id row_id = chunk_id first)) (Vector l)
             end, l).
Proof.
  intros Hl. unfold single_chunk_scan, bind at 1, gets at 1. simpl.
  assert (size l = Vector_size (Vector l)) as ->.
  { apply matches_complete_chunk_false in Hl. unfold LazyPosList.size. by rewrite Hl. }
  destruct (Vector l) as [|first v] eqn:Hv; [done|].
  rewrite bool_decide_eq_false_2 by (unfold Vector_size; simpl; lia).
  unfold bind at 1. rewrite operator_index_plain by done. rewrite Hv. simpl.
  unfold bind at 1. rewrite cbegin_plain by done.
  unfold bind at 1. rewrite cend_plain by done.
  unfold bind, gets, ret. rewrite Hv.
  by rewrite drop_0, take_ge by lia.
Qed.

Lemma Vector_index_fill_chunk_rows_0 c n :
  n ≠ 0%nat → Vector_index (fill_chunk_rows c 0 n) 0 = Returns (mkRowID c 0).
Proof. by destruct n. Qed.

Lemma single_chunk_scan_sentinel dbg l :
  matches_complete_chunk l = true → class_invariant l → size l ≠ 0 →
  single_chunk_scan chunks dbg l = (Returns true, materialized l).
Proof.
  intros Hl Hinv Hs. unfold single_chunk_scan, bind at 1, gets at 1. simpl.
  rewrite bool_decide_eq_false_2 by done.
  unfold bind at 1. rewrite operator_index_sentinel by auto. simpl.
  rewrite Vector_index_fill_chunk_rows_0 by lia.
  unfold bind at 1. rewrite cbegin_plain by done.
  unfold bind at 1. rewrite cend_plain by done.
  unfold bind, gets, ret. simpl.
  rewrite drop_0, take_ge by lia.
  by rewrite forallb_fill_chunk_rows.
Qed.

Lemma references_single_chunk_release dbg l :
  dbg = false →
  references_single_chunk chunks dbg l = (Returns (_references_single_chunk l), l).
Proof.
  intros ->. unfold references_single_chunk, bind, gets, DebugAssertM, ret. simpl.
  destruct (_references_single_chunk l) eqn:Hflag; simpl;
    destruct (matches_complete_chunk l); simpl; by rewrite Hflag.
Qed.

Lemma references_single_chunk_sentinel l :
  matches_complete_chunk l = true → class_invariant l →
  references_single_chunk chunks true l
  = (Returns true, if bool_decide (size l = 0) then l else materialized l).
Proof.
  intros Hl Hinv.
  destruct (matches_complete_chunk_true l) as [[p Hp] _]; [done|].
  destruct Hinv as (Hv & Hid & Hflag); [by rewrite Hp|].
  unfold references_single_chunk, bind at 1, gets at 1. simpl. rewrite Hflag.
  unfold bind at 1, DebugAssertM, bind at 1.
  case_bool_decide as Hs.
  - unfold single_chunk_scan, bind at 1, gets at 1. simpl.
    rewrite bool_decide_eq_true_2 by done.
    unfold ret, lift, bind, gets. simpl. rewrite Hl. simpl. by rewrite Hflag.
  - rewrite single_chunk_scan_sentinel; [|done|by intros _|done].
    unfold lift, bind, gets, ret. simpl. by rewrite Hflag.
Qed.

Lemma common_chunk_id_sentinel dbg l :
  matches_complete_chunk l = true →
  dbg = false ∨ class_invariant l →
  common_chunk_id chunks dbg l
  = if bool_decide (size l = 0)
    then (Fails "Cannot retrieve common_chunk_id of an empty chunk", l)
    else (Returns (_matches_all_chunk_id l), if dbg then materialized l else l).
Proof.
  intros Hl Hinv.
  destruct (matches_complete_chunk_true l) as [[p Hp] _]; [done|].
  unfold common_chunk_id, bind at 1, DebugAssertM.
  destruct dbg.
  - destruct Hinv as [|Hinv]; [done|].
    unfold bind at 1. rewrite references_single_chunk_sentinel by done.
    case_bool_decide as Hs; unfold lift at 1; simpl; unfold bind at 1, gets at 1, empty.
    + rewrite bool_decide_eq_true_2 by done. done.
    + rewrite size_materialized, bool_decide_eq_false_2 by done.
      unfold bind at 1, lift at 1. simpl.
      unfold bind at 1, gets at 1. simpl.
      unfold bind. rewrite operator_index_plain by done. simpl.
      rewrite Vector_index_fill_chunk_rows_0 by lia. done.
  - unfold ret, bind at 1, gets at 1, empty.
    case_bool_decide as Hs; [done|].
    unfold bind at 1, lift at 1. simpl.
    unfold bind, gets. simpl. by rewrite Hp.
Qed.

(** [matches_all_equal_to_materialized] decides whether the row ids
    are the logical sequence of the matches-all list, unless both are
    empty: then [common_chunk_id] throws. *)
Lemma matches_all_equal_to_materialized_result dbg l v :
  matches_complete_chunk l = true →
  dbg = false ∨ class_invariant l →
  ¬ (size l = 0 ∧ v = []) →
  (matches_all_equal_to_materialized chunks dbg v l).1
  = Returns (bool_decide (logical_sequence l = v)).
Proof.
  intros Hl Hinv Hne.
  destruct (matches_complete_chunk_true l) as [[p Hp] _]; [done|].
  rewrite (logical_sequence_sentinel l p Hp).
  unfold matches_all_equal_to_materialized, bind at 1.
  assert (DebugAssertM dbg (gets matches_complete_chunk)
            "called with invalid first argument" l = (Returns tt, l)) as ->.
  { unfold DebugAssertM. destruct dbg; [|done].
    unfold bind, gets, lift. by rewrite Hl. }
  unfold bind at 1, gets at 1.
  case_bool_decide as Hs; simpl.
  - assert (size l ≠ 0) as Hs0.
    { intros H0. apply Hne. split; [done|].
      rewrite H0 in Hs. unfold Vector_size in Hs. destruct v; [done|simpl in Hs; lia]. }
    unfold bind. rewrite common_chunk_id_sentinel by done.
    rewrite bool_decide_eq_false_2 by done.
    unfold ret. simpl. rewrite rows_follow_spec.
    f_equal. apply bool_decide_ext.
    assert (length v = N.to_nat (size l)) as -> by (unfold Vector_size in Hs; lia).
    split; by intros ->.
  - unfold ret. simpl. f_equal. symmetry. apply bool_decide_eq_false_2.
    intros <-. apply Hs. unfold Vector_size. rewrite length_fill_chunk_rows. lia.
Qed.


(** The outcome of [operator==] in every case but the one where exactly
    one operand is a matches-all list and both are empty. *)
Lemma operator_eq_result dbg lhs rhs :
  dbg = false ∨ (class_invariant lhs ∧ class_invariant rhs) →
  (matches_complete_chunk lhs ≠ matches_complete_chunk rhs →
   ¬ (size lhs = 0 ∧ size rhs = 0)) →
  (operator_eq chunks dbg lhs rhs).1
  = Returns (if matches_complete_chunk lhs && matches_complete_chunk rhs
             then bool_decide (_matches_all_chunk lhs = _matches_all_chunk rhs)
             else bool_decide (logical_sequence lhs = logical_sequence rhs)).
Proof.
  intros Hinv Hne. unfold operator_eq.
  destruct (matches_complete_chunk lhs) eqn:Hl, (matches_complete_chunk rhs) eqn:Hr; simpl.
  - done.
  - destruct (matches_all_equal_to_materialized _ _ _ lhs) as [r lhs'] eqn:Heq.
    simpl. change r with (r, lhs').1. rewrite <- Heq.
    rewrite matches_all_equal_to_materialized_result; [|done|tauto|].
    + by rewrite (logical_sequence_plain rhs).
    + intros [H1 H2]. apply Hne; [done|]. split; [done|].
      apply matches_complete_chunk_false in Hr. unfold LazyPosList.size.
      by rewrite Hr, H2.
  - destruct (matches_all_equal_to_materialized _ _ _ rhs) as [r rhs'] eqn:Heq.
    simpl. change r with (r, rhs').1. rewrite <- Heq.
    rewrite matches_all_equal_to_materialized_result; [|done|tauto|].
    + rewrite (logical_sequence_plain lhs) by done.
      f_equal. apply bool_decide_ext. split; by intros ->.
    + intros [H1 H2]. apply Hne; [done|]. split; [|done].
      apply matches_complete_chunk_false in Hl. unfold LazyPosList.size.
      by rewrite Hl, H2.
  - by rewrite !logical_sequence_plain.
Qed.

(** *** Effects: every const member keeps the object or materializes it *)

Abbreviation keeps := (keeps_or_materializes chunks).

Lemma keeps_ret {A} (a : A) : keeps (ret a).
Proof. intros l. by left. Qed.

Lemma keeps_gets {A} (f : PosList → A) : keeps (gets f).
Proof. intros l. by left. Qed.

Lemma keeps_lift {A} (o : Outcome A) : keeps (lift o).
Proof. intros l. by left. Qed.

Lemma keeps_bind {A B} (m : Method PosList A) (f : A → Method PosList B) :
  keeps m → (∀ a, keeps (f a)) → keeps (bind m f).
Proof.
  intros Hm Hf l. unfold bind. specialize (Hm l).
  destruct (m l) as [[a|msg|] l1]; simpl in *; [|done|done].
  destruct Hm as [->|[Hl ->]]; [apply Hf|].
  destruct (Hf a (materialized l)) as [->|[Hfalse _]]; [by right|].
  by rewrite materialized_plain in Hfalse.
Qed.

Lemma keeps_DebugAssertM dbg (cond : Method PosList bool) msg :
  keeps cond → keeps (DebugAssertM dbg cond msg).
Proof.
  intros Hc. unfold DebugAssertM. destruct dbg; [|apply keeps_ret].
  apply keeps_bind; [done|]. intros b. apply keeps_lift.
Qed.

Lemma keeps_materialize_if_necessary dbg : keeps (_materialize_if_necessary chunks dbg).
Proof.
  intros l.
  assert (_materialize_if_necessary chunks dbg l
          = if matches_complete_chunk l then _materialize chunks dbg l else (Returns tt, l))
    as ->.
  { unfold _materialize_if_necessary, bind, gets. simpl.
    by destruct (matches_complete_chunk l). }
  destruct (matches_complete_chunk l) eqn:Hl; [|by left].
  destruct (matches_complete_chunk_true l) as [[p Hp] _]; [done|].
  unfold _materialize, DebugAssertM, bind, gets, lift, modify, ret,
    LazyPosList.materialized, LazyPosList.size.
  destruct dbg; simpl; rewrite Hp; simpl; [|by right].
  repeat (case_bool_decide; simpl; [|by left]). by right.
Qed.

Create HintDb keeps discriminated.
#[local] Hint Resolve keeps_ret keeps_gets keeps_lift keeps_DebugAssertM
  keeps_materialize_if_necessary : keeps.

Ltac keeps_step :=
  lazymatch goal with
  | |- keeps_or_materializes _ (bind _ _) => apply keeps_bind; [|intros ?]
  | |- keeps_or_materializes _ (if ?b then _ else _) => destruct b
  | |- keeps_or_materializes _ (match ?o with Some _ => _ | None => _ end) => destruct o
  | |- _ => solve [auto with keeps]
  end.

Lemma keeps_operator_index dbg n : keeps (operator_index chunks dbg n).
Proof. unfold operator_index. repeat keeps_step. Qed.

Lemma keeps_cbegin dbg : keeps (cbegin chunks dbg).
Proof. unfold cbegin. repeat keeps_step. Qed.

Lemma keeps_cend dbg : keeps (cend chunks dbg).
Proof. unfold cend. repeat keeps_step. Qed.

#[local] Hint Resolve keeps_operator_index keeps_cbegin keeps_cend : keeps.

Lemma keeps_single_chunk_scan dbg : keeps (single_chunk_scan chunks dbg).
Proof. unfold single_chunk_scan. repeat keeps_step. Qed.

#[local] Hint Resolve keeps_single_chunk_scan : keeps.

Lemma keeps_references_single_chunk dbg : keeps (references_single_chunk chunks dbg).
Proof. unfold references_single_chunk. repeat keeps_step. Qed.

#[local] Hint Resolve keeps_references_single_chunk : keeps.

Lemma keeps_common_chunk_id dbg : keeps (common_chunk_id chunks dbg).
Proof. unfold common_chunk_id. repeat keeps_step. Qed.

#[local] Hint Resolve keeps_common_chunk_id : keeps.

Lemma keeps_matches_all_equal_to_materialized dbg v :
  keeps (matches_all_equal_to_materialized chunks dbg v).
Proof. unfold matches_all_equal_to_materialized. repeat keeps_step. Qed.




End WithStore.
End LazyFacts.

(** ** The loop, one round at a time *)

Module IterationFacts.
Import Iteration.

Lemma for_each_S `{InputIterator Container It} fuel (c : Container) (it end_ : It) :
  for_each (S fuel) c it end_
  = match it_equal it end_ with
    | Returns true => Some (Returns [])
    | Returns false =>
        match it_dereference c it with
        | Returns r =>
            match for_each fuel c (it_increment it) end_ with
            | Some (Returns rest) => Some (Returns (r :: rest))
            | other => other
            end
        | Fails msg => Some (Fails msg)
        | Undefined => Some Undefined
        end
    | Fails msg => Some (Fails msg)
    | Undefined => Some Undefined
    end.
Proof. done. Qed.

End IterationFacts.

(** ** Facts about the iterator wrapper of pos_list.hpp *)

Module IteratorWrapperFacts.
Import Iteration IterationFacts IteratorWrapperPosList.

(** First revision: for a list without the sentinel [end()] is
    [begin()], so the loop stops before its first round. *)
Lemma first_revision_iterates_nothing chunks l fuel :
  _matches_all_chunk l = None →
  for_each (S fuel) l (begin l) (end_ chunks l) = Some (Returns []).
Proof. intros Hl. unfold begin, end_. by rewrite Hl. Qed.

Lemma vector_iteration_from l (n i : nat) :
  (i + n = length (Vector l))%nat →
  for_each (S n) l (_vector_base_it i) (_vector_base_it (length (Vector l)))
  = Some (Returns (drop i (Vector l))).
Proof.
  revert i. induction n as [|n IH]; intros i Hi.
  - simpl. rewrite bool_decide_eq_true_2 by lia. by rewrite drop_ge by lia.
  - rewrite for_each_S.
    cbn [it_equal it_dereference it_increment iterator_InputIterator
         iterator_eq iterator_deref iterator_incr].
    rewrite bool_decide_eq_false_2 by lia.
    unfold Vector_index. rewrite Nat2N.id.
    destruct (lookup_lt_is_Some_2 (Vector l) i) as [r Hr]; [lia|].
    rewrite Hr, (IH (S i)) by lia.
    by rewrite (drop_S _ r i Hr).
Qed.

(** Second revision: the loop visits the rows of the vector in order. *)
Lemma second_revision_iterates_vector chunks l :
  _matches_all_chunk l = None →
  for_each (S (length (Vector l))) l (begin l) (end_second_revision chunks l)
  = Some (Returns (Vector l)).
Proof.
  intros Hl. unfold begin, end_second_revision. rewrite Hl.
  by rewrite (vector_iteration_from l (length (Vector l)) 0).
Qed.

End IteratorWrapperFacts.

(** ** Facts about abstract_pos_list.hpp *)

Module AbstractPosListFacts.
Import AbstractPosListHpp.

(** The virtual call bounces between the two operands for ever. *)
Lemma operator_eq_never_returns fuel this other : operator_eq fuel this other = None.
Proof.
  revert this other. induction fuel as [|fuel IH]; intros this [o]; simpl; [done|apply IH].
Qed.

Lemma PosList_index_out_of_range l i : size l ≤ i → operator_index l i = Undefined.
Proof.
  unfold size, Vector_size, operator_index, Vector_index. intros Hi.
  by rewrite lookup_ge_None_2 by lia.
Qed.

Lemma PosList_index_in_range l i :
  i < size l → ∃ r, Vector l !! N.to_nat i = Some r ∧ operator_index l i = Returns r.
Proof.
  unfold size, Vector_size, operator_index, Vector_index. intros Hi.
  destruct (lookup_lt_is_Some_2 (Vector l) (N.to_nat i)) as [r Hr]; [lia|].
  exists r. by rewrite Hr.
Qed.

Lemma PosList_memory_usage_exact l mode :
  size l * sizeof_RowID < 2 ^ 64 → memory_usage l mode = size l * sizeof_RowID.
Proof. intros Hb. unfold memory_usage. by apply N.mod_small. Qed.

Lemma common_chunk_id_empty dbg l :
  Vector l = [] → failed (common_chunk_id dbg l).
Proof.
  intros Hv. unfold common_chunk_id, references_single_chunk, single_chunk_scan,
    DebugAssert, empty, size.
  rewrite Hv. destruct dbg, (_references_single_chunk l); simpl; by eexists.
Qed.

Lemma common_chunk_id_release l first rest :
  Vector l = first :: rest → common_chunk_id false l = Returns (chunk_id first).
Proof.
  intros Hv. unfold common_chunk_id, empty, operator_index. by rewrite Hv.
Qed.

(** In a debug build [references_single_chunk] returns [true] only after
    its scan has found every row in the chunk of the first one. *)
Lemma references_single_chunk_debug l first rest :
  Vector l = first :: rest →
  references_single_chunk true l = Returns true →
  _references_single_chunk l = true
  ∧ forallb (λ row_id, bool_decide (chunk_id row_id = chunk_id first)) (Vector l) = true.
Proof.
  intros Hv. unfold references_single_chunk, single_chunk_scan, DebugAssert,
    size, operator_index.
  rewrite Hv. destruct (_references_single_chunk l); simpl; [|done].
  rewrite bool_decide_eq_true_2 by done. simpl.
  destruct (forallb _ rest); simpl; done.
Qed.

Lemma common_chunk_id_debug l first rest :
  Vector l = first :: rest →
  references_single_chunk true l = Returns true →
  common_chunk_id true l = Returns (chunk_id first).
Proof.
  intros Hv Hr. unfold common_chunk_id, DebugAssert. rewrite Hr.
  unfold empty, operator_index. by rewrite Hv.
Qed.

Lemma common_chunk_id_debug_unguaranteed l :
  references_single_chunk true l ≠ Returns true → failed (common_chunk_id true l).
Proof.
  intros Hr. unfold common_chunk_id, DebugAssert.
  assert (references_single_chunk true l ≠ Undefined) as Hu.
  { unfold references_single_chunk, single_chunk_scan, DebugAssert, size, operator_index.
    destruct (_references_single_chunk l); [|done].
    destruct (Vector l) as [|first rest]; simpl; [done|].
    rewrite bool_decide_eq_true_2 by done. simpl. by destruct (forallb _ rest). }
  destruct (references_single_chunk true l) as [[]|msg|]; simpl; try done; by eexists.
Qed.

End AbstractPosListFacts.

(** ** Facts about [MatchesAllPosList] and [PosListIterator] *)

Module MatchesAllFacts.
Import Iteration MatchesAllPosListHpp.

Lemma MatchesAll_operator_index dbg m i :
  dbg = false ∨ _common_chunk_id m ≠ INVALID_CHUNK_ID →
  operator_index dbg m i = Returns (mkRowID (_common_chunk_id m) (to_ChunkOffset i)).
Proof.
  intros Hc. unfold operator_index, DebugAssert.
  destruct dbg; [|done]. destruct Hc as [|Hc]; [done|].
  by rewrite bool_decide_eq_true_2.
Qed.

Lemma MatchesAll_common_chunk_id dbg m :
  dbg = false ∨ _common_chunk_id m ≠ INVALID_CHUNK_ID →
  common_chunk_id dbg m = Returns (_common_chunk_id m).
Proof.
  intros Hc. unfold common_chunk_id, DebugAssert.
  destruct dbg; [|done]. destruct Hc as [|Hc]; [done|].
  by rewrite bool_decide_eq_true_2.
Qed.

Lemma PosListIterator_iteration_from dbg pos_lists this k (n : nat) o :
  dbg = false ∨ _common_chunk_id (pos_lists this) ≠ INVALID_CHUNK_ID →
  k < ChunkOffset_modulus → o + N.of_nat n = k →
  for_each (H := PosListIterator_InputIterator dbg) (S n) pos_lists
    (mkPosListIterator this o k) (mkPosListIterator this k k)
  = Some (Returns (fill_chunk_rows (_common_chunk_id (pos_lists this)) o n)).
Proof.
  intros Hc Hk. revert o. induction n as [|n IH]; intros o Ho.
  - simpl. unfold equal, DebugAssert. simpl.
    rewrite (bool_decide_eq_true_2 (this = this)) by done.
    rewrite (bool_decide_eq_true_2 (k = o)) by lia. by destruct dbg.
  - rewrite IterationFacts.for_each_S.
    cbn [it_equal it_dereference it_increment PosListIterator_InputIterator].
    assert (equal dbg (mkPosListIterator this o k) (mkPosListIterator this k k) = Returns false) as ->.
    { unfold equal, DebugAssert. simpl.
      rewrite (bool_decide_eq_true_2 (this = this)) by done.
      rewrite (bool_decide_eq_false_2 (k = o)) by lia. by destruct dbg. }
    assert (dereference dbg pos_lists (mkPosListIterator this o k)
            = Returns (mkRowID (_common_chunk_id (pos_lists this)) o)) as ->.
    { unfold dereference, DebugAssert. simpl.
      rewrite bool_decide_eq_true_2 by lia.
      rewrite MatchesAll_operator_index, to_ChunkOffset_small by (done || lia).
      by destruct dbg. }
    unfold increment. cbn [_pl_pointer _chunk_offset _max_size].
    rewrite IH; [done|].
    unfold ChunkOffset_incr. rewrite to_ChunkOffset_small by lia. lia.
Qed.

(** Iterating a [MatchesAllPosList] from [begin()] to [end()] yields
    [{c,0}, ..., {c,k-1}], the values of [operator[]] in order. *)
Lemma MatchesAll_iteration chunks dbg pos_lists this p :
  _common_chunk (pos_lists this) = Some p →
  dbg = false ∨ _common_chunk_id (pos_lists this) ≠ INVALID_CHUNK_ID →
  iterate chunks dbg (S (N.to_nat (Chunk_size (chunks p)))) pos_lists this
  = Some (Returns (fill_chunk_rows (_common_chunk_id (pos_lists this)) 0
                     (N.to_nat (Chunk_size (chunks p))))).
Proof.
  intros Hp Hc. unfold iterate, begin, end_, size. rewrite Hp. simpl.
  pose proof (Chunk_size_bound (chunks p)).
  rewrite to_ChunkOffset_small by done.
  apply PosListIterator_iteration_from; [done|done|lia].
Qed.

End MatchesAllFacts.

(** ** Facts about [SingleChunkPosList] *)

Module SingleChunkFacts.
Import SingleChunkPosListHpp.

Lemma SingleChunk_index_never_fails idx s i : ¬ failed (operator_index idx s i).
Proof.
  unfold operator_index, Vector_index. intros [msg Hm].
  destruct (range_begin s); [done|].
  by destruct (idx !! _).
Qed.

Lemma SingleChunk_index_reads_index idx s i b o :
  range_begin s = at_position b →
  idx !! (b + N.to_nat i)%nat = Some o →
  operator_index idx s i = Returns (mkRowID (_chunk_id s) o).
Proof.
  intros Hb Ho. unfold operator_index, Vector_index. rewrite Hb.
  replace (N.to_nat (N.of_nat b + i)) with (b + N.to_nat i)%nat by lia.
  by rewrite Ho.
Qed.

Lemma SingleChunk_size_valid idx s b e :
  valid_range idx s → range_begin s = at_position b → range_end s = at_position e →
  size s = Returns (N.of_nat (e - b)).
Proof.
  unfold valid_range, size. intros Hv Hb He. rewrite Hb, He in *.
  destruct Hv as [Hbe Hlen]. f_equal.
  rewrite Z.mod_small by lia. lia.
Qed.

Lemma SingleChunk_index_in_range idx s n i :
  valid_range idx s → size s = Returns n → i < n →
  ∃ o, operator_index idx s i = Returns (mkRowID (_chunk_id s) o).
Proof.
  intros Hv Hs Hi. pose proof Hv as Hv'. unfold valid_range in Hv'.
  destruct (range_begin s) as [|b] eqn:Hb, (range_end s) as [|e] eqn:He; try done.
  - unfold size in Hs. rewrite Hb, He in Hs. injection Hs as <-. lia.
  - rewrite (SingleChunk_size_valid idx s b e Hv Hb He) in Hs. injection Hs as <-.
    destruct (lookup_lt_is_Some_2 idx (b + N.to_nat i)) as [o Ho]; [lia|].
    exists o. by apply (SingleChunk_index_reads_index idx s i b o).
Qed.

End SingleChunkFacts.

(** ** The claims of the specification *)

Import Examples.

(** C1 (as stated) fails: two lists that each match all rows of a chunk
    with id 0 and 3 rows denote the same logical sequence, yet they compare
    unequal because they refer to different chunk objects. *)
Lemma C1_distinct_chunks_same_sequence :
  LazyPosList.logical_sequence example_chunks lazy_all_of_first_chunk_0
  = LazyPosList.logical_sequence example_chunks lazy_all_of_second_chunk_0
  ∧ (LazyPosList.operator_eq example_chunks true
       lazy_all_of_first_chunk_0 lazy_all_of_second_chunk_0).1 = Returns false
  ∧ (LazyPosList.operator_eq example_chunks false
       lazy_all_of_first_chunk_0 lazy_all_of_second_chunk_0).1 = Returns false.
Proof. by vm_compute. Qed.

(** C1 (amended): for lists in their constructed state, [operator==] of
    the lazily materializing [PosList] returns whether both refer to the
    same chunk object when both are matches-all lists, and otherwise
    whether they denote the same logical sequence of row ids, provided
    that in the mixed case the two lists are not both empty.  In
    particular a non-empty matches-all list equals the materialized copy of
    its elements, in either order of the operands, and equals every
    matches-all list over the same chunk object. *)
Theorem C1_equality_by_representation chunks dbg (lhs rhs : LazyPosList.PosList) :
  LazyPosList.class_invariant lhs →
  LazyPosList.class_invariant rhs →
  (LazyPosList.matches_complete_chunk lhs ≠ LazyPosList.matches_complete_chunk rhs →
   ¬ (LazyPosList.size chunks lhs = 0 ∧ LazyPosList.size chunks rhs = 0)) →
  (LazyPosList.operator_eq chunks dbg lhs rhs).1
  = Returns (if LazyPosList.matches_complete_chunk lhs && LazyPosList.matches_complete_chunk rhs
             then bool_decide (LazyPosList._matches_all_chunk lhs
                               = LazyPosList._matches_all_chunk rhs)
             else bool_decide (LazyPosList.logical_sequence chunks lhs
                               = LazyPosList.logical_sequence chunks rhs))
  ∧ (LazyPosList.matches_complete_chunk lhs = true →
     LazyPosList.size chunks lhs ≠ 0 →
     let copy := LazyPosList.PosList_of_rows (LazyPosList.logical_sequence chunks lhs) in
     (LazyPosList.operator_eq chunks dbg lhs copy).1 = Returns true
     ∧ (LazyPosList.operator_eq chunks dbg copy lhs).1 = Returns true)
  ∧ (LazyPosList.matches_complete_chunk lhs = true →
     LazyPosList._matches_all_chunk rhs = LazyPosList._matches_all_chunk lhs →
     (LazyPosList.operator_eq chunks dbg lhs rhs).1 = Returns true).
Proof.
  intros Hl Hr Hne. split; [|split].
  - apply LazyFacts.operator_eq_result; auto.
  - intros Hm Hs copy.
    assert (LazyPosList.class_invariant copy) as Hc by (by intros []).
    assert (LazyPosList.matches_complete_chunk copy = false) as Hcm by done.
    assert (LazyPosList.logical_sequence chunks copy = LazyPosList.logical_sequence chunks lhs)
      as Hseq by done.
    split.
    + rewrite LazyFacts.operator_eq_result; [|by auto|by intros _ [? _]].
      rewrite Hm, Hcm, Hseq. simpl. by rewrite bool_decide_eq_true_2.
    + rewrite LazyFacts.operator_eq_result; [|by auto|by intros _ [_ ?]].
      rewrite Hm, Hcm, Hseq. simpl. by rewrite bool_decide_eq_true_2.
  - intros Hm Hp.
    assert (LazyPosList.matches_complete_chunk rhs = true) as Hm'.
    { unfold LazyPosList.matches_complete_chunk in *. by rewrite Hp. }
    rewrite LazyFacts.operator_eq_result; [|by auto|by rewrite Hm, Hm'].
    rewrite Hm, Hm'. simpl. by rewrite bool_decide_eq_true_2.
Qed.

Lemma C1_equality_by_representation_witness :
  LazyPosList.class_invariant lazy_all_of_chunk_7
  ∧ LazyPosList.class_invariant lazy_rows_of_chunk_7
  ∧ (LazyPosList.operator_eq example_chunks true lazy_all_of_chunk_7 lazy_rows_of_chunk_7).1
    = Returns true.
Proof.
  assert (LazyPosList.class_invariant lazy_all_of_chunk_7) as H1.
  { intros _. vm_compute. repeat split. discriminate. }
  assert (LazyPosList.class_invariant lazy_rows_of_chunk_7) as H2.
  { intros H. exfalso. apply H. reflexivity. }
  split; [exact H1|]. split; [exact H2|].
  refine (proj1 (C1_equality_by_representation example_chunks true
                   lazy_all_of_chunk_7 lazy_rows_of_chunk_7 H1 H2 _)).
  intros _ [H _]. vm_compute in H. discriminate.
Defined.

(** C2 (code): compared through the polymorphic [operator==], a
    [MatchesAllPosList] is unequal to itself and to the materialized list
    of its own elements, because the operator is a stub returning
    [false]; and the polymorphic operator of the materialized [PosList]
    calls back and forth between its operands without ever returning. *)
Theorem C2_polymorphic_equality_unfinished :
  MatchesAllPosListHpp.operator_eq matches_all_chunk_0
    (MatchesAllPosListHpp.dynamic_MatchesAllPosList matches_all_chunk_0) = false
  ∧ MatchesAllPosListHpp.operator_eq matches_all_chunk_0
      (MatchesAllPosListHpp.dynamic_PosList [mkRowID 0 0; mkRowID 0 1; mkRowID 0 2]) = false
  ∧ MatchesAllPosListHpp.operator_eq_MatchesAllPosList matches_all_chunk_0 matches_all_chunk_0
    = true
  ∧ ∀ fuel this other, AbstractPosListHpp.operator_eq fuel this other = None.
Proof.
  repeat split; try done. apply AbstractPosListFacts.operator_eq_never_returns.
Qed.

(** C3 (as stated) fails: the matches-all list of scenario A has 5
    elements, and its [operator[]] at index 5 returns [{2,5}]. *)
Lemma C3_matches_all_index_past_the_end :
  MatchesAllPosListHpp.size example_chunks matches_all_scenario_A = Returns 5
  ∧ MatchesAllPosListHpp.operator_index true matches_all_scenario_A 5 = Returns (mkRowID 2 5)
  ∧ MatchesAllPosListHpp.operator_index false matches_all_scenario_A 5 = Returns (mkRowID 2 5).
Proof. by vm_compute. Qed.

(** C3 (amended): no representation checks the index against [size()],
    and none raises an error for it.  A matches-all list (with a valid
    chunk id, or in a release build) returns [{c, i}] with [i] cut to 32
    bits for every [i]; the materialized list returns its [i]-th row for
    [i < size()] and its access is undefined for [i >= size()]; the
    range-backed list never fails: it returns the chunk id paired with
    whatever offset the index holds [i] places after the begin of the
    range, also past the end of the range, and is undefined where the
    index holds nothing. *)
Theorem C3_operator_index_is_unchecked (i : size_t) :
  (∀ l, AbstractPosListHpp.size l ≤ i → AbstractPosListHpp.operator_index l i = Undefined)
  ∧ (∀ l, i < AbstractPosListHpp.size l →
       ∃ r, AbstractPosListHpp.Vector l !! N.to_nat i = Some r
            ∧ AbstractPosListHpp.operator_index l i = Returns r)
  ∧ (∀ dbg m,
       dbg = false ∨ MatchesAllPosListHpp._common_chunk_id m ≠ INVALID_CHUNK_ID →
       MatchesAllPosListHpp.operator_index dbg m i
       = Returns (mkRowID (MatchesAllPosListHpp._common_chunk_id m) (to_ChunkOffset i)))
  ∧ (∀ idx s, ¬ failed (SingleChunkPosListHpp.operator_index idx s i))
  ∧ (∀ idx s b o,
       SingleChunkPosListHpp.range_begin s = SingleChunkPosListHpp.at_position b →
       idx !! (b + N.to_nat i)%nat = Some o →
       SingleChunkPosListHpp.operator_index idx s i
       = Returns (mkRowID (SingleChunkPosListHpp._chunk_id s) o)).
Proof.
  repeat split.
  - intros l. apply AbstractPosListFacts.PosList_index_out_of_range.
  - intros l. apply AbstractPosListFacts.PosList_index_in_range.
  - intros dbg m. apply MatchesAllFacts.MatchesAll_operator_index.
  - intros idx s. apply SingleChunkFacts.SingleChunk_index_never_fails.
  - intros idx s b o. apply SingleChunkFacts.SingleChunk_index_reads_index.
Qed.

Lemma C3_operator_index_is_unchecked_witness :
  AbstractPosListHpp.size two_rows_of_chunk_0 ≤ 7
  ∧ AbstractPosListHpp.operator_index two_rows_of_chunk_0 7 = Undefined
  ∧ SingleChunkPosListHpp.size range_scenario_E = Returns 7
  ∧ SingleChunkPosListHpp.operator_index example_index range_scenario_E 7
    = Returns (mkRowID 4 17).
Proof.
  assert (AbstractPosListHpp.size two_rows_of_chunk_0 ≤ 7) as H1 by (vm_compute; discriminate).
  split; [exact H1|]. split; [|split; [reflexivity|]].
  - exact (proj1 (C3_operator_index_is_unchecked 7) two_rows_of_chunk_0 H1).
  - exact (proj2 (proj2 (proj2 (proj2 (C3_operator_index_is_unchecked 7))))
             example_index range_scenario_E 0%nat 17 eq_refl eq_refl).
Defined.

(** C4 (as stated) fails: a range-backed list whose range is empty
    returns its chunk id from [common_chunk_id()]. *)
Lemma C4_empty_range_has_common_chunk_id :
  SingleChunkPosListHpp.empty range_never_set = Returns true
  ∧ SingleChunkPosListHpp.size range_never_set = Returns 0
  ∧ SingleChunkPosListHpp.common_chunk_id range_never_set = Returns 4.
Proof. by vm_compute. Qed.

(** C4 (amended): [common_chunk_id()] of the materialized [PosList] fails
    in every build when the list is empty, and in debug builds also when
    [references_single_chunk()] does not return [true]; in a release
    build a non-empty list returns the chunk id of its first row whether
    or not the guarantee was given.  The range-backed list returns its
    stored chunk id unconditionally, also when its range is empty. *)
Theorem C4_common_chunk_id_preconditions (l : AbstractPosListHpp.PosList) :
  (∀ dbg, AbstractPosListHpp.empty l = true →
     failed (AbstractPosListHpp.common_chunk_id dbg l))
  ∧ (AbstractPosListHpp.references_single_chunk true l ≠ Returns true →
     failed (AbstractPosListHpp.common_chunk_id true l))
  ∧ (∀ first rest, AbstractPosListHpp.Vector l = first :: rest →
     AbstractPosListHpp.common_chunk_id false l = Returns (chunk_id first))
  ∧ (∀ s, SingleChunkPosListHpp.common_chunk_id s
          = Returns (SingleChunkPosListHpp._chunk_id s)).
Proof.
  repeat split.
  - intros dbg He. apply AbstractPosListFacts.common_chunk_id_empty.
    unfold AbstractPosListHpp.empty in He. by apply bool_decide_eq_true in He.
  - apply AbstractPosListFacts.common_chunk_id_debug_unguaranteed.
  - apply AbstractPosListFacts.common_chunk_id_release.
Qed.

Lemma C4_common_chunk_id_preconditions_witness :
  AbstractPosListHpp.empty
    (AbstractPosListHpp.guarantee_single_chunk (AbstractPosListHpp.PosList_of_rows [])) = true
  ∧ failed (AbstractPosListHpp.common_chunk_id true
              (AbstractPosListHpp.guarantee_single_chunk (AbstractPosListHpp.PosList_of_rows [])))
  ∧ AbstractPosListHpp.common_chunk_id false two_rows_of_chunk_0 = Returns 0.
Proof.
  split; [reflexivity|]. split.
  - exact (proj1 (C4_common_chunk_id_preconditions
                    (AbstractPosListHpp.guarantee_single_chunk
                       (AbstractPosListHpp.PosList_of_rows []))) true eq_refl).
  - exact (proj1 (proj2 (proj2 (C4_common_chunk_id_preconditions two_rows_of_chunk_0)))
             (mkRowID 0 0) [mkRowID 0 1] eq_refl).
Defined.

(** C5 (code): in the first revision of pos_list.hpp, [end()] of a list
    without the sentinel wraps [Vector::begin()]; iterating a list of two
    rows from [begin()] to [end()] visits nothing, although [size()] is 2
    and [operator[]] returns both rows.  With [end()] of the second
    revision the same loop visits both rows in order. *)
Theorem C5_first_revision_end_is_begin :
  IteratorWrapperPosList.size wrapped_two_rows = 2
  ∧ IteratorWrapperPosList.operator_index wrapped_two_rows 0 = Returns (mkRowID 0 0)
  ∧ IteratorWrapperPosList.operator_index wrapped_two_rows 1 = Returns (mkRowID 0 1)
  ∧ Iteration.for_each 3 wrapped_two_rows
      (IteratorWrapperPosList.begin wrapped_two_rows)
      (IteratorWrapperPosList.end_ example_chunks wrapped_two_rows) = Some (Returns [])
  ∧ Iteration.for_each 3 wrapped_two_rows
      (IteratorWrapperPosList.begin wrapped_two_rows)
      (IteratorWrapperPosList.end_second_revision example_chunks wrapped_two_rows)
    = Some (Returns [mkRowID 0 0; mkRowID 0 1]).
Proof. by vm_compute. Qed.

(** C6: a [MatchesAllPosList] over a chunk with [k] rows and the chunk id
    [c] (a valid chunk id; in a release build any) has [size() = k],
    [operator[](i) = {c, i}] for every [i < k],
    [references_single_chunk() = true] and [common_chunk_id() = c]; and
    [size()] of a lazily materializing [PosList] constructed over that
    chunk is [k] as well. *)
Theorem C6_matches_all_list chunks dbg (p : address) (c : ChunkID) :
  dbg = false ∨ c ≠ INVALID_CHUNK_ID →
  let m := MatchesAllPosListHpp.mkMatchesAllPosList (Some p) c in
  let k := Chunk_size (chunks p) in
  MatchesAllPosListHpp.size chunks m = Returns k
  ∧ (∀ i, i < k → MatchesAllPosListHpp.operator_index dbg m i = Returns (mkRowID c i))
  ∧ MatchesAllPosListHpp.references_single_chunk m = true
  ∧ MatchesAllPosListHpp.common_chunk_id dbg m = Returns c
  ∧ LazyPosList.size chunks (LazyPosList.PosList_matches_all (Some p) c) = k.
Proof.
  intros Hc m k. repeat split.
  - intros i Hi. rewrite MatchesAllFacts.MatchesAll_operator_index by done.
    simpl. rewrite to_ChunkOffset_small; [done|].
    pose proof (Chunk_size_bound (chunks p)). unfold k in Hi. lia.
  - by apply MatchesAllFacts.MatchesAll_common_chunk_id.
Qed.

Lemma C6_matches_all_list_witness :
  MatchesAllPosListHpp.size example_chunks matches_all_scenario_A = Returns 5
  ∧ MatchesAllPosListHpp.operator_index true matches_all_scenario_A 3 = Returns (mkRowID 2 3)
  ∧ MatchesAllPosListHpp.references_single_chunk matches_all_scenario_A = true
  ∧ MatchesAllPosListHpp.common_chunk_id true matches_all_scenario_A = Returns 2.
Proof.
  assert (true = false ∨ (2 : ChunkID) ≠ INVALID_CHUNK_ID) as H by (right; discriminate).
  pose proof (C6_matches_all_list example_chunks true 1 2 H) as (H1 & H2 & H3 & H4 & _).
  split; [exact H1|]. split; [|split; [exact H3|exact H4]].
  apply (H2 3). reflexivity.
Defined.

(** C7 (code): [memory_usage] of single_chunk_pos_list.hpp returns
    [sizeof(this)], the size of a pointer, for every list and mode; that is
    not the size of the object, which the out-of-line revision of the same
    member returns. *)
Theorem C7_memory_usage_is_pointer_size :
  (∀ s mode, SingleChunkPosListHpp.memory_usage s mode = SingleChunkPosListHpp.sizeof_pointer)
  ∧ SingleChunkPosListHpp.sizeof_pointer ≠ SingleChunkPosListHpp.sizeof_SingleChunkPosList
  ∧ (∀ s mode, SingleChunkPosListHpp.memory_usage_out_of_line s mode
               = SingleChunkPosListHpp.sizeof_SingleChunkPosList)
  ∧ SingleChunkPosListHpp.memory_usage range_scenario_E Full = 8
  ∧ SingleChunkPosListHpp.memory_usage_out_of_line range_scenario_E Full = 32.
Proof. repeat split; done. Qed.

Module LazyEffectFacts.
Import LazyPosList LazyFacts.

Section WithStore.
Variable chunks : ChunkStore.




End WithStore.
End LazyEffectFacts.




(** C9 (as stated) fails in a release build: a list with rows of chunk 0
    and of chunk 1 on which the guarantee was given answers
    [references_single_chunk()] with [true] and [common_chunk_id()] with 0,
    while its row at index 1 lies in chunk 1. *)
Lemma C9_release_trusts_the_flag :
  AbstractPosListHpp.references_single_chunk false wrongly_guaranteed = Returns true
  ∧ AbstractPosListHpp.size wrongly_guaranteed = 2
  ∧ AbstractPosListHpp.common_chunk_id false wrongly_guaranteed = Returns 0
  ∧ AbstractPosListHpp.operator_index wrongly_guaranteed 1 = Returns (mkRowID 1 0).
Proof. by vm_compute. Qed.

(** C9 (amended): in a debug build, when [references_single_chunk()] of a
    non-empty materialized [PosList] returns [true] (its exhaustive scan
    has passed), every row of the list has the chunk id that
    [common_chunk_id()] returns; a release build returns the flag
    unverified.  For the range-backed list the property holds by
    construction in every build: [references_single_chunk()] is [true] and
    every element of a valid range has the chunk id [common_chunk_id()]
    returns; likewise for every value [operator[]] of a matches-all list
    returns. *)
Theorem C9_single_chunk_invariant :
  (∀ l i, AbstractPosListHpp.references_single_chunk true l = Returns true →
          i < AbstractPosListHpp.size l →
          ∃ r, AbstractPosListHpp.operator_index l i = Returns r
               ∧ AbstractPosListHpp.common_chunk_id true l = Returns (chunk_id r))
  ∧ (∀ idx s n i, SingleChunkPosListHpp.valid_range idx s →
          SingleChunkPosListHpp.size s = Returns n → i < n →
          SingleChunkPosListHpp.references_single_chunk s = true
          ∧ ∃ r, SingleChunkPosListHpp.operator_index idx s i = Returns r
                 ∧ SingleChunkPosListHpp.common_chunk_id s = Returns (chunk_id r))
  ∧ (∀ dbg m i r, MatchesAllPosListHpp.operator_index dbg m i = Returns r →
          MatchesAllPosListHpp.references_single_chunk m = true
          ∧ MatchesAllPosListHpp.common_chunk_id dbg m = Returns (chunk_id r)).
Proof.
  split; [|split].
  - intros l i Href Hi.
    destruct (AbstractPosListFacts.PosList_index_in_range l i Hi) as (r & Hr & Hidx).
    exists r. split; [done|].
    destruct (AbstractPosListHpp.Vector l) as [|first rest] eqn:Hv.
    { unfold AbstractPosListHpp.size, Vector_size in Hi. rewrite Hv in Hi. simpl in Hi. lia. }
    rewrite (AbstractPosListFacts.common_chunk_id_debug l first rest Hv Href).
    destruct (AbstractPosListFacts.references_single_chunk_debug l first rest Hv Href)
      as [_ Hall].
    rewrite forallb_forall in Hall.
    assert (bool_decide (chunk_id r = chunk_id first) = true) as Hc.
    { apply Hall. apply list_elem_of_In. rewrite Hv.
      by apply (list_elem_of_lookup_2 _ (N.to_nat i)). }
    apply bool_decide_eq_true in Hc. by rewrite Hc.
  - intros idx s n i Hv Hs Hi. split; [done|].
    destruct (SingleChunkFacts.SingleChunk_index_in_range idx s n i Hv Hs Hi) as [o Ho].
    by exists (mkRowID (SingleChunkPosListHpp._chunk_id s) o).
  - intros dbg m i r Hr. split; [done|].
    unfold MatchesAllPosListHpp.operator_index, MatchesAllPosListHpp.common_chunk_id,
      DebugAssert in *.
    destruct dbg; simpl in *; [case_bool_decide; simpl in *; [|done]|];
      by injection Hr as <-.
Qed.

Lemma C9_single_chunk_invariant_witness :
  AbstractPosListHpp.references_single_chunk true
    (AbstractPosListHpp.guarantee_single_chunk two_rows_of_chunk_0) = Returns true
  ∧ 1 < AbstractPosListHpp.size (AbstractPosListHpp.guarantee_single_chunk two_rows_of_chunk_0)
  ∧ ∃ r, AbstractPosListHpp.operator_index
           (AbstractPosListHpp.guarantee_single_chunk two_rows_of_chunk_0) 1 = Returns r
         ∧ AbstractPosListHpp.common_chunk_id true
             (AbstractPosListHpp.guarantee_single_chunk two_rows_of_chunk_0)
           = Returns (chunk_id r).
Proof.
  assert (AbstractPosListHpp.references_single_chunk true
            (AbstractPosListHpp.guarantee_single_chunk two_rows_of_chunk_0) = Returns true)
    as H1 by reflexivity.
  assert (1 < AbstractPosListHpp.size
                (AbstractPosListHpp.guarantee_single_chunk two_rows_of_chunk_0))
    as H2 by reflexivity.
  split; [exact H1|]. split; [exact H2|].
  exact (proj1 C9_single_chunk_invariant
           (AbstractPosListHpp.guarantee_single_chunk two_rows_of_chunk_0) 1 H1 H2).
Defined.

(** C10: move-constructing a [PosList] hands over the rows of the vector
    and copies the single-chunk flag, while the two matches-all members
    of the new list keep their defaults; moved from a list that matches
    all of a chunk, the new list therefore has [size() = 0] and denotes the
    empty sequence, which is not the sequence of the source as soon as the
    chunk has a row. *)
Theorem C10_move_constructor_drops_sentinel chunks (other : LazyPosList.PosList) :
  let new := (LazyPosList.PosList_move other).1 in
  LazyPosList.Vector new = LazyPosList.Vector other
  ∧ LazyPosList._references_single_chunk new = LazyPosList._references_single_chunk other
  ∧ LazyPosList._matches_all_chunk new = nullptr
  ∧ LazyPosList._matches_all_chunk_id new = INVALID_CHUNK_ID
  ∧ ∀ p c,
      let source := LazyPosList.PosList_matches_all (Some p) c in
      let moved := (LazyPosList.PosList_move source).1 in
      LazyPosList.size chunks moved = 0
      ∧ LazyPosList.logical_sequence chunks moved = []
      ∧ LazyPosList.size chunks source = Chunk_size (chunks p)
      ∧ (Chunk_size (chunks p) ≠ 0 →
         LazyPosList.logical_sequence chunks moved ≠ LazyPosList.logical_sequence chunks source).
Proof.
  repeat split.
  intros Hk Heq. apply (f_equal length) in Heq.
  unfold LazyPosList.logical_sequence in Heq. simpl in Heq.
  rewrite length_fmap, length_seq in Heq. lia.
Qed.

Lemma C10_move_constructor_drops_sentinel_witness :
  Chunk_size (example_chunks 1) ≠ 0
  ∧ LazyPosList.size example_chunks (LazyPosList.PosList_move lazy_all_of_chunk_2).1 = 0
  ∧ LazyPosList.logical_sequence example_chunks (LazyPosList.PosList_move lazy_all_of_chunk_2).1
    ≠ LazyPosList.logical_sequence example_chunks lazy_all_of_chunk_2.
Proof.
  assert (Chunk_size (example_chunks 1) ≠ 0) as H by (vm_compute; discriminate).
  pose proof (proj2 (proj2 (proj2 (proj2
                (C10_move_constructor_drops_sentinel example_chunks lazy_all_of_chunk_2)))) 1 2)
    as (H1 & _ & _ & H2).
  split; [exact H|]. split; [exact H1|exact (H2 H)].
Defined.

(** * Further properties of the sources *)

(** ** The modifiers and the remaining operators of the lazily
       materializing [PosList] *)

Module LazyModifierFacts.
Import LazyPosList LazyFacts.

Section WithStore.
Variable chunks : ChunkStore.

(** What [_materialize_if_necessary] leaves behind owns exactly the
    logical sequence, without a sentinel and with the flag as it was. *)
Lemma materialize_if_necessary_settles dbg l :
  dbg = false ∨ class_invariant l →
  ∃ l', _materialize_if_necessary chunks dbg l = (Returns tt, l')
        ∧ _matches_all_chunk l' = nullptr
        ∧ Vector l' = logical_sequence chunks l
        ∧ _references_single_chunk l' = _references_single_chunk l.
Proof.
  intros Hinv. destruct (matches_complete_chunk l) eqn:Hl.
  - exists (materialized chunks l).
    rewrite materialize_if_necessary_sentinel by done.
    destruct (matches_complete_chunk_true l) as [[p Hp] _]; [done|].
    by rewrite (logical_sequence_sentinel chunks l p Hp).
  - exists l. rewrite materialize_if_necessary_plain by done.
    rewrite logical_sequence_plain by done.
    by apply matches_complete_chunk_false in Hl.
Qed.

Lemma plain_logical_sequence l :
  _matches_all_chunk l = nullptr → logical_sequence chunks l = Vector l.
Proof. intros Hl. unfold logical_sequence. by rewrite Hl. Qed.

Lemma plain_size l :
  _matches_all_chunk l = nullptr → size chunks l = Vector_size (Vector l).
Proof. intros Hl. unfold size. by rewrite Hl. Qed.

Lemma push_back_result dbg val l :
  dbg = false ∨ class_invariant l →
  ∃ l', push_back chunks dbg val l = (Returns tt, l')
        ∧ _matches_all_chunk l' = nullptr
        ∧ Vector l' = logical_sequence chunks l ++ [val]
        ∧ _references_single_chunk l' = _references_single_chunk l.
Proof.
  intros Hinv.
  destruct (materialize_if_necessary_settles dbg l Hinv) as (l1 & Hm & Hs & Hv & Hf).
  exists (set_Vector (Vector l1 ++ [val]) l1).
  unfold push_back, bind, modify. rewrite Hm. simpl. by rewrite Hv.
Qed.

Lemma pop_back_result dbg l :
  dbg = false ∨ class_invariant l →
  ∃ l', (pop_back chunks dbg l).2 = l'
        ∧ _matches_all_chunk l' = nullptr
        ∧ _references_single_chunk l' = _references_single_chunk l
        ∧ match logical_sequence chunks l with
          | [] => (pop_back chunks dbg l).1 = Undefined ∧ Vector l' = []
          | _ :: _ => (pop_back chunks dbg l).1 = Returns tt
                      ∧ Vector l' = removelast (logical_sequence chunks l)
          end.
Proof.
  intros Hinv.
  destruct (materialize_if_necessary_settles dbg l Hinv) as (l1 & Hm & Hs & Hv & Hf).
  assert (pop_back chunks dbg l
          = match Vector l1 with
            | [] => (Undefined, l1)
            | _ :: _ => (Returns tt, set_Vector (removelast (Vector l1)) l1)
            end) as ->.
  { unfold pop_back, bind at 1. rewrite Hm. unfold bind, gets, modify, lift. simpl.
    destruct (Vector l1) eqn:E; simpl; by rewrite ?E. }
  rewrite <- Hv. destruct (Vector l1) as [|r v] eqn:Hv1.
  - by exists l1.
  - eexists. split; [reflexivity|]. simpl. by rewrite ?Hv1.
Qed.

(** [resize] shrinks, grows or throws, and leaves a list without the
    sentinel in each case. *)
Lemma resize_result dbg max_size n val l :
  dbg = false ∨ class_invariant l →
  ∃ l', (resize chunks dbg max_size n val l).2 = l'
        ∧ _matches_all_chunk l' = nullptr
        ∧ _references_single_chunk l' = _references_single_chunk l
        ∧ if bool_decide (n ≤ Vector_size (logical_sequence chunks l) ∨ n ≤ max_size)
          then (resize chunks dbg max_size n val l).1 = Returns tt
               ∧ Vector l' = take (N.to_nat n) (logical_sequence chunks l)
                             ++ replicate (N.to_nat n - length (logical_sequence chunks l)) val
          else (resize chunks dbg max_size n val l).1 = Fails length_error
               ∧ Vector l' = logical_sequence chunks l.
Proof.
  intros Hinv.
  destruct (materialize_if_necessary_settles dbg l Hinv) as (l1 & Hm & Hs & Hv & Hf).
  rewrite <- Hv.
  assert (resize chunks dbg max_size n val l
          = if bool_decide (n ≤ Vector_size (Vector l1))
            then (Returns tt, set_Vector (take (N.to_nat n) (Vector l1)) l1)
            else if bool_decide (n ≤ max_size)
            then (Returns tt,
                  set_Vector (Vector l1 ++ replicate (N.to_nat n - length (Vector l1)) val) l1)
            else (Fails length_error, l1)) as ->.
  { unfold resize, bind at 1. rewrite Hm. unfold bind, gets, modify, lift. simpl.
    by repeat case_bool_decide. }
  unfold Vector_size.
  destruct (decide (n ≤ N.of_nat (length (Vector l1)))) as [Hshrink|Hgrow].
  - rewrite (bool_decide_eq_true_2 (n ≤ N.of_nat (length (Vector l1)))) by done.
    rewrite bool_decide_eq_true_2 by (by left).
    eexists. split; [reflexivity|]. simpl. repeat split; try done.
    replace (N.to_nat n - length (Vector l1))%nat with 0%nat by lia.
    by rewrite app_nil_r.
  - rewrite (bool_decide_eq_false_2 (n ≤ N.of_nat (length (Vector l1)))) by done.
    destruct (decide (n ≤ max_size)) as [Hfits|Hbig].
    + rewrite (bool_decide_eq_true_2 (n ≤ max_size)) by done.
      rewrite bool_decide_eq_true_2 by (by right).
      eexists. split; [reflexivity|]. simpl. repeat split; try done.
      by rewrite take_ge by lia.
    + rewrite (bool_decide_eq_false_2 (n ≤ max_size)) by done.
      rewrite bool_decide_eq_false_2 by tauto.
      by exists l1.
Qed.

End WithStore.
End LazyModifierFacts.

(** X1: [push_back] (and [emplace_back]) append to the logical sequence,
    also on a list that still carries the matches-all sentinel: the list
    afterwards carries no sentinel, denotes the old sequence followed by the
    new row, is one element longer and has its single-chunk flag unchanged. *)
Theorem X1_push_back_appends chunks dbg (l : LazyPosList.PosList) (val : RowID) :
  dbg = false ∨ LazyPosList.class_invariant l →
  (LazyPosList.push_back chunks dbg val l).1 = Returns tt
  ∧ LazyPosList.emplace_back chunks dbg (chunk_id val) (chunk_offset val) l
    = LazyPosList.push_back chunks dbg val l
  ∧ let l' := (LazyPosList.push_back chunks dbg val l).2 in
    LazyPosList.matches_complete_chunk l' = false
    ∧ LazyPosList.logical_sequence chunks l' = LazyPosList.logical_sequence chunks l ++ [val]
    ∧ LazyPosList.size chunks l' = LazyPosList.size chunks l + 1
    ∧ LazyPosList._references_single_chunk l' = LazyPosList._references_single_chunk l.
Proof.
  intros Hinv.
  destruct (LazyModifierFacts.push_back_result chunks dbg val l Hinv) as (l' & Hp & Hs & Hv & Hf).
  rewrite Hp. simpl. split; [done|]. split.
  { rewrite <- Hp. by destruct val. }
  split; [by apply LazyFacts.matches_complete_chunk_false|].
  rewrite LazyModifierFacts.plain_logical_sequence, LazyModifierFacts.plain_size by done.
  rewrite Hv. split; [done|]. split; [|done].
  rewrite (LazyFacts.size_logical_sequence chunks l).
  unfold Vector_size. rewrite length_app. simpl. lia.
Qed.

Lemma X1_push_back_appends_witness :
  (true = false ∨ LazyPosList.class_invariant lazy_all_of_chunk_7)
  ∧ LazyPosList.logical_sequence example_chunks
      (LazyPosList.push_back example_chunks true (mkRowID 7 9) lazy_all_of_chunk_7).2
    = [mkRowID 7 0; mkRowID 7 1; mkRowID 7 2; mkRowID 7 9].
Proof.
  assert (true = false ∨ LazyPosList.class_invariant lazy_all_of_chunk_7) as H.
  { right. intros _. vm_compute. repeat split. discriminate. }
  split; [exact H|].
  exact (proj1 (proj2 (proj2 (proj2
           (X1_push_back_appends example_chunks true lazy_all_of_chunk_7 (mkRowID 7 9) H))))).
Defined.

(** X2: [pop_back] removes the last element of the logical sequence, also
    of a list that carries the sentinel (which it materializes first); on a
    list whose logical sequence is empty it is undefined behaviour.  After
    [push_back] it gives back the logical sequence the list had. *)
Theorem X2_pop_back_removes_last chunks dbg (l : LazyPosList.PosList) :
  dbg = false ∨ LazyPosList.class_invariant l →
  (LazyPosList.logical_sequence chunks l = [] →
     (LazyPosList.pop_back chunks dbg l).1 = Undefined)
  ∧ (LazyPosList.logical_sequence chunks l ≠ [] →
     (LazyPosList.pop_back chunks dbg l).1 = Returns tt
     ∧ LazyPosList.logical_sequence chunks (LazyPosList.pop_back chunks dbg l).2
       = removelast (LazyPosList.logical_sequence chunks l))
  ∧ (∀ val,
       let pushed := (LazyPosList.push_back chunks dbg val l).2 in
       (LazyPosList.pop_back chunks dbg pushed).1 = Returns tt
       ∧ LazyPosList.logical_sequence chunks (LazyPosList.pop_back chunks dbg pushed).2
         = LazyPosList.logical_sequence chunks l).
Proof.
  intros Hinv.
  assert (∀ l0, dbg = false ∨ LazyPosList.class_invariant l0 →
            LazyPosList.logical_sequence chunks l0 ≠ [] →
            (LazyPosList.pop_back chunks dbg l0).1 = Returns tt
            ∧ LazyPosList.logical_sequence chunks (LazyPosList.pop_back chunks dbg l0).2
              = removelast (LazyPosList.logical_sequence chunks l0)) as Hpop.
  { intros l0 Hinv0 Hne.
    destruct (LazyModifierFacts.pop_back_result chunks dbg l0 Hinv0) as (l' & Hst & Hs & _ & Hcase).
    destruct (LazyPosList.logical_sequence chunks l0) as [|r v]; [done|].
    destruct Hcase as [Hr Hv]. split; [done|].
    by rewrite Hst, LazyModifierFacts.plain_logical_sequence. }
  split; [|split].
  - intros He.
    destruct (LazyModifierFacts.pop_back_result chunks dbg l Hinv) as (l' & _ & _ & _ & Hcase).
    rewrite He in Hcase. by destruct Hcase.
  - by apply Hpop.
  - intros val pushed.
    destruct (LazyModifierFacts.push_back_result chunks dbg val l Hinv) as (l' & Hp & Hs & Hv & Hf).
    assert (pushed = l') as -> by (unfold pushed; by rewrite Hp).
    assert (LazyPosList.class_invariant l') as Hinv' by (by intros []).
    assert (LazyPosList.logical_sequence chunks l'
            = LazyPosList.logical_sequence chunks l ++ [val]) as Hseq.
    { by rewrite LazyModifierFacts.plain_logical_sequence. }
    destruct (Hpop l') as [H1 H2]; [by right| |].
    { rewrite Hseq. by destruct (LazyPosList.logical_sequence chunks l). }
    split; [done|]. by rewrite H2, Hseq, removelast_last.
Qed.

Lemma X2_pop_back_removes_last_witness :
  (true = false ∨ LazyPosList.class_invariant lazy_all_of_chunk_7)
  ∧ LazyPosList.logical_sequence example_chunks lazy_all_of_chunk_7 ≠ []
  ∧ LazyPosList.logical_sequence example_chunks
      (LazyPosList.pop_back example_chunks true lazy_all_of_chunk_7).2
    = [mkRowID 7 0; mkRowID 7 1].
Proof.
  assert (true = false ∨ LazyPosList.class_invariant lazy_all_of_chunk_7) as H.
  { right. intros _. vm_compute. repeat split. discriminate. }
  assert (LazyPosList.logical_sequence example_chunks lazy_all_of_chunk_7 ≠ []) as H'.
  { vm_compute. discriminate. }
  split; [exact H|]. split; [exact H'|].
  exact (proj2 (proj1 (proj2
           (X2_pop_back_removes_last example_chunks true lazy_all_of_chunk_7 H)) H')).
Defined.

(** X3: [resize(n, val)] with [n] at most [max_size()] (or at most the
    current size) makes the logical sequence exactly [n] long: its first
    [n] elements are kept and the missing ones are filled with [val].
    Asked to grow beyond [max_size()] it throws [std::length_error], and
    the list keeps its logical sequence and its size.  In every case a list
    that carried the sentinel is materialized by the call and the
    single-chunk flag stays as it was.  [max_size()] is a [size_type], and
    at least [2^32] where Hyrise builds, so that materializing a chunk
    stays within it. *)
Theorem X3_resize_truncates_or_pads chunks dbg (max_size : size_t)
    (l : LazyPosList.PosList) (n : size_t) (val : RowID) :
  dbg = false ∨ LazyPosList.class_invariant l →
  ChunkOffset_modulus ≤ max_size → max_size < 2 ^ 64 →
  let out := LazyPosList.resize chunks dbg max_size n val l in
  let old := LazyPosList.logical_sequence chunks l in
  LazyPosList.matches_complete_chunk out.2 = false
  ∧ LazyPosList._references_single_chunk out.2 = LazyPosList._references_single_chunk l
  ∧ (n ≤ max_size ∨ n ≤ LazyPosList.size chunks l →
     out.1 = Returns tt
     ∧ LazyPosList.logical_sequence chunks out.2
       = take (N.to_nat n) old ++ replicate (N.to_nat n - length old) val
     ∧ LazyPosList.size chunks out.2 = n)
  ∧ (max_size < n → LazyPosList.size chunks l < n →
     out.1 = Fails LazyPosList.length_error
     ∧ LazyPosList.logical_sequence chunks out.2 = old
     ∧ LazyPosList.size chunks out.2 = LazyPosList.size chunks l).
Proof.
  intros Hinv _ _ out old.
  destruct (LazyModifierFacts.resize_result chunks dbg max_size n val l Hinv)
    as (l' & Hst & Hs & Hf & Hcase).
  fold out in Hst, Hcase. fold old in Hcase. rewrite Hst.
  pose proof (LazyFacts.size_logical_sequence chunks l) as Hsize. fold old in Hsize.
  rewrite Hsize.
  split; [by apply LazyFacts.matches_complete_chunk_false|]. split; [done|].
  rewrite LazyModifierFacts.plain_logical_sequence, LazyModifierFacts.plain_size by done.
  split.
  - intros Hn. rewrite bool_decide_eq_true_2 in Hcase by tauto.
    destruct Hcase as [Hr Hv]. rewrite Hv. split; [done|]. split; [done|].
    unfold Vector_size in *. rewrite length_app, length_take, length_replicate. lia.
  - intros Hbig Hgrow. rewrite bool_decide_eq_false_2 in Hcase by lia.
    destruct Hcase as [Hr Hv]. by rewrite Hv.
Qed.

Lemma X3_resize_truncates_or_pads_witness :
  (true = false ∨ LazyPosList.class_invariant lazy_all_of_chunk_7)
  ∧ ChunkOffset_modulus ≤ 1152921504606846975
  ∧ 1152921504606846975 < 2 ^ 64
  ∧ LazyPosList.logical_sequence example_chunks
      (LazyPosList.resize example_chunks true 1152921504606846975 4 (mkRowID 1 1)
         lazy_all_of_chunk_7).2
    = [mkRowID 7 0; mkRowID 7 1; mkRowID 7 2; mkRowID 1 1]
  ∧ (LazyPosList.resize example_chunks true 1152921504606846975 1152921504606846976
       (mkRowID 1 1) lazy_all_of_chunk_7).1
    = Fails LazyPosList.length_error
  ∧ LazyPosList.logical_sequence example_chunks
      (LazyPosList.resize example_chunks true 1152921504606846975 1152921504606846976
         (mkRowID 1 1) lazy_all_of_chunk_7).2
    = [mkRowID 7 0; mkRowID 7 1; mkRowID 7 2].
Proof.
  assert (true = false ∨ LazyPosList.class_invariant lazy_all_of_chunk_7) as H.
  { right. intros _. vm_compute. repeat split. discriminate. }
  assert (ChunkOffset_modulus ≤ 1152921504606846975) as H1 by (vm_compute; discriminate).
  assert (1152921504606846975 < 2 ^ 64) as H2 by reflexivity.
  assert (1152921504606846975 < 1152921504606846976) as H3 by reflexivity.
  assert (LazyPosList.size example_chunks lazy_all_of_chunk_7 < 1152921504606846976) as H4
    by reflexivity.
  pose proof (X3_resize_truncates_or_pads example_chunks true 1152921504606846975
                lazy_all_of_chunk_7 1152921504606846976 (mkRowID 1 1) H H1 H2)
    as (_ & _ & _ & Hthrow).
  destruct (Hthrow H3 H4) as (Hf & Hseq & _).
  assert (4 ≤ 1152921504606846975
          ∨ 4 ≤ LazyPosList.size example_chunks lazy_all_of_chunk_7) as H5
    by (left; vm_compute; discriminate).
  pose proof (X3_resize_truncates_or_pads example_chunks true 1152921504606846975
                lazy_all_of_chunk_7 4 (mkRowID 1 1) H H1 H2)
    as (_ & _ & Hgrow & _).
  destruct (Hgrow H5) as (_ & Hpad & _).
  split; [exact H|]. split; [exact H1|]. split; [exact H2|].
  split; [exact Hpad|]. split; [exact Hf|exact Hseq].
Defined.

Module LazyGuaranteeFacts.
Import LazyPosList LazyFacts.

(** In a debug build, on a list without the sentinel whose flag is set,
    [references_single_chunk] returns [true] when its scan passes and
    throws otherwise. *)
Lemma references_single_chunk_debug_plain chunks l :
  matches_complete_chunk l = false → _references_single_chunk l = true →
  (references_single_chunk chunks true l).1
  = if match Vector l with
       | [] => true
       | first :: _ =>
           forallb (λ row_id, bool_decide (chunk_id row_id = chunk_id first)) (Vector l)
       end
    then Returns true
    else Fails "Chunk was marked as referencing only a single chunk, but references more".
Proof.
  intros Hl Hf. unfold references_single_chunk, bind at 1, gets at 1. simpl. rewrite Hf.
  unfold bind at 1, DebugAssertM, bind at 1.
  rewrite single_chunk_scan_plain by done.
  destruct (match Vector l with [] => true | _ => _ end); unfold lift; simpl; [|done].
  unfold bind, gets, ret. simpl. rewrite Hl. simpl. by rewrite Hf.
Qed.

End LazyGuaranteeFacts.

(** X4: [clear()] drops the sentinel without materializing it: the list
    afterwards is empty and denotes the empty sequence whatever it denoted
    before, yet its single-chunk flag stays as it was; so
    [references_single_chunk()] still answers with the flag, while
    [common_chunk_id()] fails in every build. *)
Theorem X4_clear_empties_and_keeps_flag chunks dbg (l : LazyPosList.PosList) :
  let l' := LazyPosList.clear l in
  LazyPosList.size chunks l' = 0
  ∧ LazyPosList.matches_complete_chunk l' = false
  ∧ LazyPosList.logical_sequence chunks l' = []
  ∧ (LazyPosList.references_single_chunk chunks dbg l').1
    = Returns (LazyPosList._references_single_chunk l)
  ∧ failed (LazyPosList.common_chunk_id chunks dbg l').1
  ∧ (LazyPosList.common_chunk_id chunks dbg l').2 = l'.
Proof.
  unfold LazyPosList.clear. repeat split.
  - by destruct dbg, (LazyPosList._references_single_chunk l).
  - destruct dbg, (LazyPosList._references_single_chunk l); by eexists.
  - by destruct dbg, (LazyPosList._references_single_chunk l).
Qed.

(** X5: the modifiers neither reset nor re-check the single-chunk flag.
    Pushing a row of another chunk onto a list that matches all rows of a
    non-empty chunk leaves the flag set over rows of two chunks: in a
    release build [references_single_chunk()] still returns [true], in a
    debug build it throws. *)
Theorem X5_push_back_keeps_stale_guarantee chunks dbg (p : address) (c : ChunkID)
    (val : RowID) :
  c ≠ INVALID_CHUNK_ID → Chunk_size (chunks p) ≠ 0 → chunk_id val ≠ c →
  let l' := (LazyPosList.push_back chunks dbg val
               (LazyPosList.PosList_matches_all (Some p) c)).2 in
  LazyPosList._references_single_chunk l' = true
  ∧ mkRowID c 0 ∈ LazyPosList.logical_sequence chunks l'
  ∧ val ∈ LazyPosList.logical_sequence chunks l'
  ∧ (LazyPosList.references_single_chunk chunks false l').1 = Returns true
  ∧ (LazyPosList.references_single_chunk chunks true l').1
    = Fails "Chunk was marked as referencing only a single chunk, but references more".
Proof.
  intros Hc Hk Hval l'.
  assert (LazyPosList.class_invariant (LazyPosList.PosList_matches_all (Some p) c)) as Hinv.
  { by intros _. }
  destruct (LazyModifierFacts.push_back_result chunks dbg val _ (or_intror Hinv))
    as (l1 & Hp & Hs & Hv & Hf).
  assert (l' = l1) as -> by (unfold l'; by rewrite Hp).
  assert (LazyPosList.matches_complete_chunk l1 = false) as Hm
    by (by apply LazyFacts.matches_complete_chunk_false).
  assert (∃ rest, LazyPosList.logical_sequence chunks
                    (LazyPosList.PosList_matches_all (Some p) c)
                  = mkRowID c 0 :: rest
                  ∧ forallb (λ row_id, bool_decide (chunk_id row_id = c)) rest = true)
    as (rest & Hseq & Hrest).
  { rewrite (LazyFacts.logical_sequence_sentinel chunks
               (LazyPosList.PosList_matches_all (Some p) c) p eq_refl).
    change (LazyPosList.size chunks (LazyPosList.PosList_matches_all (Some p) c))
      with (Chunk_size (chunks p)).
    change (LazyPosList._matches_all_chunk_id (LazyPosList.PosList_matches_all (Some p) c))
      with c.
    destruct (N.to_nat (Chunk_size (chunks p))) as [|n] eqn:Hn; [lia|].
    eexists. split; [reflexivity|]. apply LazyFacts.forallb_fill_chunk_rows. }
  rewrite Hseq in Hv.
  rewrite (LazyModifierFacts.plain_logical_sequence chunks l1 Hs), Hv.
  split; [done|].
  split; [apply elem_of_cons; by left|].
  split; [apply elem_of_cons; right; apply elem_of_app; right;
          by apply list_elem_of_singleton|].
  split.
  - rewrite LazyFacts.references_single_chunk_release by done. simpl. by rewrite Hf.
  - rewrite LazyGuaranteeFacts.references_single_chunk_debug_plain by (done || by rewrite Hf).
    rewrite Hv. simpl. rewrite bool_decide_eq_true_2 by done. simpl.
    rewrite forallb_app, Hrest. simpl.
    by rewrite bool_decide_eq_false_2.
Qed.

Lemma X5_push_back_keeps_stale_guarantee_witness :
  (LazyPosList.references_single_chunk example_chunks false
     (LazyPosList.push_back example_chunks false (mkRowID 1 0) lazy_all_of_chunk_7).2).1
  = Returns true
  ∧ (LazyPosList.references_single_chunk example_chunks true
       (LazyPosList.push_back example_chunks false (mkRowID 1 0) lazy_all_of_chunk_7).2).1
    = Fails "Chunk was marked as referencing only a single chunk, but references more".
Proof.
  assert ((7 : ChunkID) ≠ INVALID_CHUNK_ID) as H1 by discriminate.
  assert (Chunk_size (example_chunks 2) ≠ 0) as H2 by (vm_compute; discriminate).
  assert (chunk_id (mkRowID 1 0) ≠ 7) as H3 by discriminate.
  exact (proj2 (proj2 (proj2
           (X5_push_back_keeps_stale_guarantee example_chunks false 2 7 (mkRowID 1 0) H1 H2 H3)))).
Defined.

(** X6: [operator==] of the lazily materializing [PosList] is symmetric
    and reflexive for all lists in every build, failures included: both
    operand orders give the same outcome and leave the two lists in the
    same states, and a list always equals itself.  The overloads against
    a plain vector agree with each other and with the comparison against
    the list that owns that vector. *)
Theorem X6_equality_symmetric_reflexive chunks dbg (l r : LazyPosList.PosList)
    (v : list RowID) :
  (LazyPosList.operator_eq chunks dbg l r).1 = (LazyPosList.operator_eq chunks dbg r l).1
  ∧ (LazyPosList.operator_eq chunks dbg l r).2.1 = (LazyPosList.operator_eq chunks dbg r l).2.2
  ∧ (LazyPosList.operator_eq chunks dbg l r).2.2 = (LazyPosList.operator_eq chunks dbg r l).2.1
  ∧ LazyPosList.operator_eq chunks dbg l l = (Returns true, (l, l))
  ∧ LazyPosList.operator_eq_vector chunks dbg l v = LazyPosList.vector_operator_eq chunks dbg v l
  ∧ (LazyPosList.operator_eq_vector chunks dbg l v).1
    = (LazyPosList.operator_eq chunks dbg l (LazyPosList.PosList_of_rows v)).1.
Proof.
  assert (∀ a b : list RowID, bool_decide (a = b) = bool_decide (b = a)) as Hsym.
  { intros a b. apply bool_decide_ext. split; by intros ->. }
  unfold LazyPosList.operator_eq, LazyPosList.operator_eq_vector,
    LazyPosList.vector_operator_eq.
  destruct (LazyPosList.matches_complete_chunk l) eqn:Hl,
           (LazyPosList.matches_complete_chunk r) eqn:Hr; simpl.
  - repeat split; try done.
    + f_equal. apply bool_decide_ext. split; by intros ->.
    + by rewrite bool_decide_eq_true_2.
    + by destruct (LazyPosList.matches_all_equal_to_materialized _ _ _ l).
  - destruct (LazyPosList.matches_all_equal_to_materialized _ _ (LazyPosList.Vector r) l);
      destruct (LazyPosList.matches_all_equal_to_materialized _ _ v l); simpl.
    repeat split; try done. by rewrite bool_decide_eq_true_2.
  - destruct (LazyPosList.matches_all_equal_to_materialized _ _ (LazyPosList.Vector l) r); simpl.
    repeat split; try done.
    + by rewrite bool_decide_eq_true_2.
    + by rewrite Hsym.
  - repeat split; try done.
    + by rewrite Hsym.
    + by rewrite bool_decide_eq_true_2.
    + by rewrite Hsym.
Qed.

(** X7: [operator==] is not transitive.  Two lists that match all rows of
    two different chunk objects with the same valid id and the same non-zero
    row count both equal the materialized list of these rows, but not each
    other. *)
Theorem X7_equality_not_transitive chunks dbg (p1 p2 : address) (c : ChunkID) :
  p1 ≠ p2 → c ≠ INVALID_CHUNK_ID →
  Chunk_size (chunks p1) = Chunk_size (chunks p2) → Chunk_size (chunks p1) ≠ 0 →
  let a := LazyPosList.PosList_matches_all (Some p1) c in
  let b := LazyPosList.PosList_of_rows (LazyPosList.logical_sequence chunks a) in
  let d := LazyPosList.PosList_matches_all (Some p2) c in
  (LazyPosList.operator_eq chunks dbg a b).1 = Returns true
  ∧ (LazyPosList.operator_eq chunks dbg b d).1 = Returns true
  ∧ (LazyPosList.operator_eq chunks dbg a d).1 = Returns false.
Proof.
  intros Hp Hc Hk Hk0 a b d.
  assert (LazyPosList.class_invariant a) as Ha by (by intros _).
  assert (LazyPosList.class_invariant b) as Hb by (by intros []).
  assert (LazyPosList.class_invariant d) as Hd by (by intros _).
  assert (LazyPosList.logical_sequence chunks d = LazyPosList.logical_sequence chunks a) as Hseq.
  { unfold LazyPosList.logical_sequence. simpl. by rewrite Hk. }
  split; [|split].
  - rewrite LazyFacts.operator_eq_result; [|by auto|by intros _ [? _]].
    simpl. by rewrite bool_decide_eq_true_2.
  - rewrite LazyFacts.operator_eq_result; [|by auto|].
    + simpl. rewrite Hseq. by rewrite bool_decide_eq_true_2.
    + intros _ [_ H0]. unfold LazyPosList.size in H0. simpl in H0. by rewrite <- Hk in H0.
  - rewrite LazyFacts.operator_eq_result; [|by auto|done].
    simpl. rewrite bool_decide_eq_false_2; [done|]. by intros [= ?].
Qed.

Lemma X7_equality_not_transitive_witness :
  (LazyPosList.operator_eq example_chunks true lazy_all_of_first_chunk_0
     (LazyPosList.PosList_of_rows
        (LazyPosList.logical_sequence example_chunks lazy_all_of_first_chunk_0))).1
  = Returns true
  ∧ (LazyPosList.operator_eq example_chunks true
       (LazyPosList.PosList_of_rows
          (LazyPosList.logical_sequence example_chunks lazy_all_of_first_chunk_0))
       lazy_all_of_second_chunk_0).1 = Returns true
  ∧ (LazyPosList.operator_eq example_chunks true
       lazy_all_of_first_chunk_0 lazy_all_of_second_chunk_0).1 = Returns false.
Proof.
  assert ((2 : address) ≠ 3) as H1 by discriminate.
  assert ((0 : ChunkID) ≠ INVALID_CHUNK_ID) as H2 by discriminate.
  assert (Chunk_size (example_chunks 2) = Chunk_size (example_chunks 3)) as H3 by reflexivity.
  assert (Chunk_size (example_chunks 2) ≠ 0) as H4 by (vm_compute; discriminate).
  exact (X7_equality_not_transitive example_chunks true 2 3 0 H1 H2 H3 H4).
Defined.

(** X8: for a well-formed list, [size()] is the length of the logical
    sequence and the const [operator[]] returns its [n]-th element when
    there is one, and is undefined behaviour otherwise, whether or not the
    list carries the sentinel. *)
Theorem X8_size_and_index_read_logical_sequence chunks dbg (l : LazyPosList.PosList)
    (n : size_t) :
  dbg = false ∨ LazyPosList.class_invariant l →
  LazyPosList.size chunks l = N.of_nat (length (LazyPosList.logical_sequence chunks l))
  ∧ (∀ r, LazyPosList.logical_sequence chunks l !! N.to_nat n = Some r →
          (LazyPosList.operator_index chunks dbg n l).1 = Returns r)
  ∧ (LazyPosList.size chunks l ≤ n →
     (LazyPosList.operator_index chunks dbg n l).1 = Undefined).
Proof.
  intros Hinv. split; [apply LazyFacts.size_logical_sequence|].
  rewrite LazyFacts.operator_index_logical_sequence by done.
  unfold Vector_index. split.
  - by intros r ->.
  - intros Hn. rewrite (LazyFacts.size_logical_sequence chunks l) in Hn.
    unfold Vector_size in Hn. by rewrite lookup_ge_None_2 by lia.
Qed.

Lemma X8_size_and_index_read_logical_sequence_witness :
  (true = false ∨ LazyPosList.class_invariant lazy_all_of_chunk_2)
  ∧ LazyPosList.size example_chunks lazy_all_of_chunk_2 = 5
  ∧ (LazyPosList.operator_index example_chunks true 3 lazy_all_of_chunk_2).1
    = Returns (mkRowID 2 3).
Proof.
  assert (true = false ∨ LazyPosList.class_invariant lazy_all_of_chunk_2) as H.
  { right. intros _. vm_compute. repeat split. discriminate. }
  pose proof (X8_size_and_index_read_logical_sequence example_chunks true
                lazy_all_of_chunk_2 3 H) as (H1 & H2 & _).
  split; [exact H|]. split; [exact H1|]. exact (H2 (mkRowID 2 3) eq_refl).
Defined.

(** ** The class invariant of the lazily materializing [PosList] *)

Module LazyInvariantFacts.
Import LazyPosList LazyFacts.

Lemma plain_invariant l : _matches_all_chunk l = nullptr → class_invariant l.
Proof. intros Hl Hn. by destruct Hn. Qed.

Lemma keeps_invariant chunks {A} (m : Method PosList A) l :
  keeps_or_materializes chunks m → class_invariant l → class_invariant (m l).2.
Proof.
  intros Hm Hinv. destruct (Hm l) as [->|[_ ->]]; [done|]. by apply plain_invariant.
Qed.

End LazyInvariantFacts.

(** X16: the class invariant of the lazily materializing [PosList] (a list
    that carries the sentinel owns no rows, has a valid chunk id and has the
    single-chunk flag set) is established by the constructors (the one over
    a chunk needs a valid chunk id) and kept by every member: the const
    accessors, both operands of [operator==], the modifiers, [clear],
    [guarantee_single_chunk] and both objects of the move constructor. *)
Theorem X16_class_invariant_is_kept chunks dbg (l r : LazyPosList.PosList)
    (max_size n : size_t) (val : RowID) :
  LazyPosList.class_invariant l → LazyPosList.class_invariant r →
  (∀ v, LazyPosList.class_invariant (LazyPosList.PosList_of_rows v))
  ∧ (∀ chunk c, c ≠ INVALID_CHUNK_ID →
                LazyPosList.class_invariant (LazyPosList.PosList_matches_all chunk c))
  ∧ LazyPosList.class_invariant (LazyPosList.operator_index chunks dbg n l).2
  ∧ LazyPosList.class_invariant (LazyPosList.cbegin chunks dbg l).2
  ∧ LazyPosList.class_invariant (LazyPosList.cend chunks dbg l).2
  ∧ LazyPosList.class_invariant (LazyPosList.references_single_chunk chunks dbg l).2
  ∧ LazyPosList.class_invariant (LazyPosList.common_chunk_id chunks dbg l).2
  ∧ LazyPosList.class_invariant (LazyPosList.operator_eq chunks dbg l r).2.1
  ∧ LazyPosList.class_invariant (LazyPosList.operator_eq chunks dbg l r).2.2
  ∧ LazyPosList.class_invariant (LazyPosList.push_back chunks dbg val l).2
  ∧ LazyPosList.class_invariant (LazyPosList.pop_back chunks dbg l).2
  ∧ LazyPosList.class_invariant (LazyPosList.resize chunks dbg max_size n val l).2
  ∧ LazyPosList.class_invariant (LazyPosList.clear l)
  ∧ LazyPosList.class_invariant (LazyPosList.guarantee_single_chunk l)
  ∧ LazyPosList.class_invariant (LazyPosList.PosList_move l).1
  ∧ LazyPosList.class_invariant (LazyPosList.PosList_move l).2.
Proof.
  intros Hl Hr.
  split; [by intros v []|]. split; [by intros chunk c Hc _|].
  split; [apply (LazyInvariantFacts.keeps_invariant chunks);
            [apply LazyFacts.keeps_operator_index|done]|].
  split; [apply (LazyInvariantFacts.keeps_invariant chunks);
            [apply LazyFacts.keeps_cbegin|done]|].
  split; [apply (LazyInvariantFacts.keeps_invariant chunks);
            [apply LazyFacts.keeps_cend|done]|].
  split; [apply (LazyInvariantFacts.keeps_invariant chunks);
            [apply LazyFacts.keeps_references_single_chunk|done]|].
  split; [apply (LazyInvariantFacts.keeps_invariant chunks);
            [apply LazyFacts.keeps_common_chunk_id|done]|].
  split.
  { unfold LazyPosList.operator_eq.
    destruct (LazyPosList.matches_complete_chunk l), (LazyPosList.matches_complete_chunk r);
      simpl; try done.
    - pose proof (LazyInvariantFacts.keeps_invariant chunks _ l
                    (LazyFacts.keeps_matches_all_equal_to_materialized chunks dbg
                       (LazyPosList.Vector r)) Hl) as H.
      by destruct (LazyPosList.matches_all_equal_to_materialized _ _ _ l).
    - by destruct (LazyPosList.matches_all_equal_to_materialized _ _ _ r). }
  split.
  { unfold LazyPosList.operator_eq.
    destruct (LazyPosList.matches_complete_chunk l), (LazyPosList.matches_complete_chunk r);
      simpl; try done.
    - by destruct (LazyPosList.matches_all_equal_to_materialized _ _ _ l).
    - pose proof (LazyInvariantFacts.keeps_invariant chunks _ r
                    (LazyFacts.keeps_matches_all_equal_to_materialized chunks dbg
                       (LazyPosList.Vector l)) Hr) as H.
      by destruct (LazyPosList.matches_all_equal_to_materialized _ _ _ r). }
  split.
  { destruct (LazyModifierFacts.push_back_result chunks dbg val l (or_intror Hl))
      as (l' & -> & Hs & _). by apply LazyInvariantFacts.plain_invariant. }
  split.
  { destruct (LazyModifierFacts.pop_back_result chunks dbg l (or_intror Hl))
      as (l' & -> & Hs & _). by apply LazyInvariantFacts.plain_invariant. }
  split.
  { destruct (LazyModifierFacts.resize_result chunks dbg max_size n val l (or_intror Hl))
      as (l' & -> & Hs & _). by apply LazyInvariantFacts.plain_invariant. }
  split; [by apply LazyInvariantFacts.plain_invariant|].
  split.
  { intros Hn. destruct (Hl Hn) as (Hv & Hc & _). done. }
  split; [by apply LazyInvariantFacts.plain_invariant|].
  intros Hn. destruct (Hl Hn) as (Hv & Hc & Hf). done.
Qed.

Lemma X16_class_invariant_is_kept_witness :
  LazyPosList.class_invariant lazy_all_of_chunk_7
  ∧ LazyPosList.class_invariant
      (LazyPosList.push_back example_chunks true (mkRowID 7 9) lazy_all_of_chunk_7).2.
Proof.
  assert (LazyPosList.class_invariant lazy_all_of_chunk_7) as H.
  { intros _. vm_compute. repeat split. discriminate. }
  split; [exact H|].
  exact (proj1 (proj2 (proj2 (proj2 (proj2 (proj2 (proj2 (proj2 (proj2 (proj2
           (X16_class_invariant_is_kept example_chunks true
              lazy_all_of_chunk_7 lazy_all_of_chunk_7 1152921504606846975 0 (mkRowID 7 9)
              H H))))))))))).
Defined.

(** ** The iterator wrapper revisions of pos_list.hpp *)

Module IteratorWrapperSentinelFacts.
Import Iteration IterationFacts IteratorWrapperPosList.

Lemma matches_all_iteration_from l c k (n : nat) o :
  k < ChunkOffset_modulus → o + N.of_nat n = k →
  for_each (S n) l
    (_matches_all_base_it (mkMatchesAllIterator (mkRowID c o)))
    (_matches_all_base_it (mkMatchesAllIterator (mkRowID c k)))
  = Some (Returns (fill_chunk_rows c o n)).
Proof.
  intros Hk. revert o. induction n as [|n IH]; intros o Ho.
  - simpl. unfold MatchesAllIterator_eq. simpl.
    rewrite bool_decide_eq_true_2; [done|]. f_equal. lia.
  - rewrite for_each_S.
    cbn [it_equal it_dereference it_increment iterator_InputIterator
         iterator_eq iterator_deref iterator_incr].
    unfold MatchesAllIterator_eq, MatchesAllIterator_incr.
    cbn [_current_row_id chunk_id chunk_offset].
    rewrite bool_decide_eq_false_2 by (intros [= ?]; lia).
    rewrite IH; [done|].
    unfold ChunkOffset_incr. rewrite to_ChunkOffset_small by lia. lia.
Qed.

End IteratorWrapperSentinelFacts.

(** X9: in both iterator-wrapper revisions of pos_list.hpp, iterating a
    list that carries the matches-all sentinel from [begin()] to [end()]
    terminates and visits [{c,0}, ..., {c,k-1}] in order, [k] being the row
    count of the chunk and [c] the chunk id of the list. *)
Theorem X9_wrapper_iterates_matched_chunk chunks (l : IteratorWrapperPosList.PosList)
    (p : address) :
  IteratorWrapperPosList._matches_all_chunk l = Some p →
  let k := N.to_nat (Chunk_size (chunks p)) in
  let rows := (λ i, mkRowID (IteratorWrapperPosList._chunk_id l) (N.of_nat i)) <$> seq 0 k in
  Iteration.for_each (S k) l
    (IteratorWrapperPosList.begin l) (IteratorWrapperPosList.end_ chunks l)
  = Some (Returns rows)
  ∧ Iteration.for_each (S k) l
      (IteratorWrapperPosList.begin l) (IteratorWrapperPosList.end_second_revision chunks l)
    = Some (Returns rows).
Proof.
  intros Hp k rows.
  pose proof (Chunk_size_bound (chunks p)) as Hb.
  unfold IteratorWrapperPosList.begin, IteratorWrapperPosList.end_,
    IteratorWrapperPosList.end_second_revision. rewrite Hp.
  unfold rows. rewrite <- fill_chunk_rows_enumerates by (unfold k; lia).
  split; apply IteratorWrapperSentinelFacts.matches_all_iteration_from;
    (done || (unfold k; lia)).
Qed.

Lemma X9_wrapper_iterates_matched_chunk_witness :
  Iteration.for_each 4 (IteratorWrapperPosList.PosList_matches_all (Some 2) 7)
    (IteratorWrapperPosList.begin (IteratorWrapperPosList.PosList_matches_all (Some 2) 7))
    (IteratorWrapperPosList.end_ example_chunks
       (IteratorWrapperPosList.PosList_matches_all (Some 2) 7))
  = Some (Returns [mkRowID 7 0; mkRowID 7 1; mkRowID 7 2]).
Proof.
  exact (proj1 (X9_wrapper_iterates_matched_chunk example_chunks
                  (IteratorWrapperPosList.PosList_matches_all (Some 2) 7) 2 eq_refl)).
Defined.

(** X10: in the iterator-wrapper revisions, every member but [begin()]
    and [end()] is the vector's and does not see the sentinel.  A list
    constructed over a chunk has [size() = 0] and is [empty()] whatever the
    chunk holds, its [operator[]] is undefined at every index,
    [references_single_chunk()] returns [true], [common_chunk_id()] fails
    in every build, and [operator==] finds it equal to the empty list and
    to every other list constructed over a chunk. *)
Theorem X10_wrapper_members_ignore_sentinel dbg (chunk chunk' : shared_ptr_Chunk)
    (c c' : ChunkID) (i : size_t) :
  let l := IteratorWrapperPosList.PosList_matches_all chunk c in
  IteratorWrapperPosList.size l = 0
  ∧ IteratorWrapperPosList.empty l = true
  ∧ IteratorWrapperPosList.operator_index l i = Undefined
  ∧ IteratorWrapperPosList.references_single_chunk dbg l = Returns true
  ∧ IteratorWrapperPosList.common_chunk_id dbg l
    = Fails "Cannot retrieve common_chunk_id of an empty chunk"
  ∧ (∀ u, IteratorWrapperPosList.operator_eq l (IteratorWrapperPosList.PosList_of_rows [] u)
          = true)
  ∧ IteratorWrapperPosList.operator_eq l
      (IteratorWrapperPosList.PosList_matches_all chunk' c') = true.
Proof. by destruct dbg. Qed.

(** X11: for a list without the sentinel, the loop from [begin()] to
    [end()] of the second revision terminates and visits exactly the rows
    of the vector in order, and so agrees with [size()] and [operator[]];
    with [end()] of the first revision the same loop visits nothing,
    whatever the list holds. *)
Theorem X11_second_revision_visits_vector chunks (l : IteratorWrapperPosList.PosList) :
  IteratorWrapperPosList._matches_all_chunk l = None →
  (∃ rows,
     Iteration.for_each (S (length (IteratorWrapperPosList.Vector l))) l
       (IteratorWrapperPosList.begin l)
       (IteratorWrapperPosList.end_second_revision chunks l) = Some (Returns rows)
     ∧ IteratorWrapperPosList.size l = N.of_nat (length rows)
     ∧ ∀ (i : nat) r, rows !! i = Some r →
         IteratorWrapperPosList.operator_index l (N.of_nat i) = Returns r)
  ∧ ∀ fuel, Iteration.for_each (S fuel) l
              (IteratorWrapperPosList.begin l) (IteratorWrapperPosList.end_ chunks l)
            = Some (Returns []).
Proof.
  intros Hl. split.
  - exists (IteratorWrapperPosList.Vector l).
    split; [by apply IteratorWrapperFacts.second_revision_iterates_vector|].
    split; [done|]. intros i r Hr.
    unfold IteratorWrapperPosList.operator_index, Vector_index.
    by rewrite Nat2N.id, Hr.
  - intros fuel. by apply IteratorWrapperFacts.first_revision_iterates_nothing.
Qed.

Lemma X11_second_revision_visits_vector_witness :
  Iteration.for_each 1 wrapped_two_rows
    (IteratorWrapperPosList.begin wrapped_two_rows)
    (IteratorWrapperPosList.end_ example_chunks wrapped_two_rows) = Some (Returns []).
Proof.
  exact (proj2 (X11_second_revision_visits_vector example_chunks wrapped_two_rows eq_refl) 0%nat).
Defined.

(** ** [PosListIterator] *)

(** X12: iterating a [MatchesAllPosList] (valid chunk id, or release
    build) through its [PosListIterator] from [begin()] to [end()]
    terminates within [size() + 1] rounds and yields [size()] rows, the
    [i]-th of which is the value of [operator[](i)]. *)
Theorem X12_facade_iteration_agrees_with_index chunks dbg
    (pos_lists : address → MatchesAllPosListHpp.MatchesAllPosList) (this p : address) :
  MatchesAllPosListHpp._common_chunk (pos_lists this) = Some p →
  dbg = false
  ∨ MatchesAllPosListHpp._common_chunk_id (pos_lists this) ≠ INVALID_CHUNK_ID →
  ∃ rows,
    MatchesAllPosListHpp.iterate chunks dbg (S (N.to_nat (Chunk_size (chunks p))))
      pos_lists this = Some (Returns rows)
    ∧ MatchesAllPosListHpp.size chunks (pos_lists this) = Returns (N.of_nat (length rows))
    ∧ ∀ (i : nat), (i < length rows)%nat →
        MatchesAllPosListHpp.operator_index dbg (pos_lists this) (N.of_nat i)
        = match rows !! i with Some r => Returns r | None => Undefined end.
Proof.
  intros Hp Hc. pose proof (Chunk_size_bound (chunks p)) as Hb.
  eexists. split; [by apply MatchesAllFacts.MatchesAll_iteration|].
  rewrite length_fill_chunk_rows. split.
  - unfold MatchesAllPosListHpp.size. rewrite Hp. f_equal. lia.
  - intros i Hi. rewrite lookup_fill_chunk_rows by lia.
    rewrite MatchesAllFacts.MatchesAll_operator_index by done.
    by rewrite to_ChunkOffset_small, N.add_0_l by lia.
Qed.

Lemma X12_facade_iteration_agrees_with_index_witness :
  ∃ rows,
    MatchesAllPosListHpp.iterate example_chunks true 6 (λ _, matches_all_scenario_A) 9
    = Some (Returns rows)
    ∧ MatchesAllPosListHpp.size example_chunks matches_all_scenario_A
      = Returns (N.of_nat (length rows))
    ∧ ∀ (i : nat), (i < length rows)%nat →
        MatchesAllPosListHpp.operator_index true matches_all_scenario_A (N.of_nat i)
        = match rows !! i with Some r => Returns r | None => Undefined end.
Proof.
  assert (true = false ∨ (2 : ChunkID) ≠ INVALID_CHUNK_ID) as H by (right; discriminate).
  exact (X12_facade_iteration_agrees_with_index example_chunks true
           (λ _, matches_all_scenario_A) 9 1 eq_refl H).
Defined.

Module PosListIteratorFacts.
Import MatchesAllPosListHpp.

Lemma modulus_value : Z.of_N ChunkOffset_modulus = 4294967296%Z.
Proof. done. Qed.

Lemma decrement_offset o :
  o < ChunkOffset_modulus →
  to_ChunkOffset (o + ChunkOffset_modulus - 1)
  = if bool_decide (o = 0) then ChunkOffset_modulus - 1 else o - 1.
Proof.
  intros Ho. unfold to_ChunkOffset. case_bool_decide as H0.
  - subst o. by vm_compute.
  - replace (o + ChunkOffset_modulus - 1) with ((o - 1) + 1 * ChunkOffset_modulus) by lia.
    rewrite N.Div0.mod_add. apply N.mod_small. lia.
Qed.

Lemma increment_offset o :
  o < ChunkOffset_modulus →
  ChunkOffset_incr o = if bool_decide (o = ChunkOffset_modulus - 1) then 0 else o + 1.
Proof.
  intros Ho. unfold ChunkOffset_incr, to_ChunkOffset. case_bool_decide as H0.
  - subst o. by vm_compute.
  - apply N.mod_small. lia.
Qed.

Lemma advance_offset it n :
  Z.of_N (_chunk_offset (advance it n))
  = ((Z.of_N (_chunk_offset it) + n) mod 4294967296)%Z.
Proof.
  unfold advance. cbn [_chunk_offset]. rewrite modulus_value.
  rewrite Z2N.id; [done|]. apply Z.mod_pos_bound. done.
Qed.

End PosListIteratorFacts.

(** X13: the arithmetic of [PosListIterator] on an iterator whose offset is
    a [ChunkOffset]: [decrement] undoes [increment] and the other way round
    (wrapping at the ends of the range); [advance] by 1 is [increment] and
    by -1 is [decrement]; two [advance]s add up; and advancing by
    [distance_to(other)] reaches the offset of [other]. *)
Theorem X13_iterator_arithmetic (it other : MatchesAllPosListHpp.PosListIterator) (n m : Z) :
  MatchesAllPosListHpp._chunk_offset it < ChunkOffset_modulus →
  MatchesAllPosListHpp._chunk_offset other < ChunkOffset_modulus →
  MatchesAllPosListHpp.decrement (MatchesAllPosListHpp.increment it) = it
  ∧ MatchesAllPosListHpp.increment (MatchesAllPosListHpp.decrement it) = it
  ∧ MatchesAllPosListHpp.advance it 1 = MatchesAllPosListHpp.increment it
  ∧ MatchesAllPosListHpp.advance it (-1) = MatchesAllPosListHpp.decrement it
  ∧ MatchesAllPosListHpp.advance (MatchesAllPosListHpp.advance it n) m
    = MatchesAllPosListHpp.advance it (n + m)
  ∧ MatchesAllPosListHpp._chunk_offset
      (MatchesAllPosListHpp.advance it (MatchesAllPosListHpp.distance_to it other))
    = MatchesAllPosListHpp._chunk_offset other.
Proof.
  intros Hit Hother. destruct it as [ptr o mx], other as [ptr' o' mx']. simpl in *.
  assert (∀ a b : MatchesAllPosListHpp.PosListIterator,
            MatchesAllPosListHpp._pl_pointer a = MatchesAllPosListHpp._pl_pointer b →
            MatchesAllPosListHpp._max_size a = MatchesAllPosListHpp._max_size b →
            Z.of_N (MatchesAllPosListHpp._chunk_offset a)
            = Z.of_N (MatchesAllPosListHpp._chunk_offset b) → a = b) as Hext.
  { intros [] []. simpl. intros -> -> ?%N2Z.inj. by subst. }
  pose proof PosListIteratorFacts.modulus_value as Hmod.
  assert (ChunkOffset_modulus = 4294967296) as HmodN by done.
  repeat split.
  - unfold MatchesAllPosListHpp.decrement, MatchesAllPosListHpp.increment. simpl. f_equal.
    rewrite PosListIteratorFacts.decrement_offset by apply to_ChunkOffset_bound.
    rewrite PosListIteratorFacts.increment_offset by done.
    repeat case_bool_decide; lia.
  - unfold MatchesAllPosListHpp.decrement, MatchesAllPosListHpp.increment. simpl. f_equal.
    rewrite PosListIteratorFacts.increment_offset by apply to_ChunkOffset_bound.
    rewrite PosListIteratorFacts.decrement_offset by done.
    repeat case_bool_decide; lia.
  - apply Hext; [done|done|]. rewrite PosListIteratorFacts.advance_offset. simpl.
    rewrite PosListIteratorFacts.increment_offset by done.
    case_bool_decide as H0.
    + subst o. by vm_compute.
    + rewrite Z.mod_small by lia. lia.
  - apply Hext; [done|done|]. rewrite PosListIteratorFacts.advance_offset. simpl.
    rewrite PosListIteratorFacts.decrement_offset by done.
    case_bool_decide as H0.
    + subst o. by vm_compute.
    + replace (Z.of_N o + -1)%Z with (Z.of_N (o - 1)) by lia.
      rewrite Z.mod_small by lia. done.
  - apply Hext; [done|done|]. rewrite !PosListIteratorFacts.advance_offset. simpl.
    rewrite Zplus_mod_idemp_l. f_equal. lia.
  - unfold MatchesAllPosListHpp.distance_to. cbn [MatchesAllPosListHpp._chunk_offset].
    replace (Z.of_N o + (Z.of_N o' - Z.of_N o))%Z with (Z.of_N o') by lia.
    assert (Z.of_N o' < 4294967296)%Z as Hlt by lia.
    rewrite Z.mod_small; [lia|]. split; [lia|exact Hlt].
Qed.

Lemma X13_iterator_arithmetic_witness :
  MatchesAllPosListHpp.decrement
    (MatchesAllPosListHpp.increment (MatchesAllPosListHpp.mkPosListIterator 9 4294967295 5))
  = MatchesAllPosListHpp.mkPosListIterator 9 4294967295 5.
Proof.
  assert (4294967295 < ChunkOffset_modulus) as H by reflexivity.
  exact (proj1 (X13_iterator_arithmetic
                  (MatchesAllPosListHpp.mkPosListIterator 9 4294967295 5)
                  (MatchesAllPosListHpp.mkPosListIterator 9 4294967295 5) 0 0 H H)).
Defined.

(** X14: the guards of [PosListIterator] are debug-only.  Dereferencing an
    iterator that stands at or past [_max_size] (such as [end()]) throws in
    a debug build, while a release build returns the row [{c, offset}] that
    is not an element of the list; comparing iterators of two different
    lists throws in a debug build, while a release build compares the
    offsets alone. *)
Theorem X14_iterator_guards_are_debug_only
    (pos_lists : address → MatchesAllPosListHpp.MatchesAllPosList)
    (it other : MatchesAllPosListHpp.PosListIterator) :
  (MatchesAllPosListHpp._max_size it ≤ MatchesAllPosListHpp._chunk_offset it →
   MatchesAllPosListHpp._chunk_offset it < ChunkOffset_modulus →
   MatchesAllPosListHpp.dereference true pos_lists it = Fails "You foool"
   ∧ MatchesAllPosListHpp.dereference false pos_lists it
     = Returns (mkRowID
                  (MatchesAllPosListHpp._common_chunk_id
                     (pos_lists (MatchesAllPosListHpp._pl_pointer it)))
                  (MatchesAllPosListHpp._chunk_offset it)))
  ∧ (MatchesAllPosListHpp._pl_pointer it ≠ MatchesAllPosListHpp._pl_pointer other →
     MatchesAllPosListHpp.equal true it other = Fails "You trusted me and I failed you."
     ∧ MatchesAllPosListHpp.equal false it other
       = Returns (bool_decide (MatchesAllPosListHpp._chunk_offset other
                               = MatchesAllPosListHpp._chunk_offset it))).
Proof.
  split.
  - intros Hmax Hoff. unfold MatchesAllPosListHpp.dereference, DebugAssert. simpl.
    rewrite bool_decide_eq_false_2 by lia. split; [done|].
    unfold MatchesAllPosListHpp.operator_index, DebugAssert. simpl.
    by rewrite to_ChunkOffset_small.
  - intros Hp. unfold MatchesAllPosListHpp.equal, DebugAssert. simpl.
    by rewrite (bool_decide_eq_false_2 _ Hp).
Qed.

Lemma X14_iterator_guards_are_debug_only_witness :
  MatchesAllPosListHpp.dereference true (λ _, matches_all_scenario_A)
    (MatchesAllPosListHpp.mkPosListIterator 9 5 5) = Fails "You foool"
  ∧ MatchesAllPosListHpp.dereference false (λ _, matches_all_scenario_A)
      (MatchesAllPosListHpp.mkPosListIterator 9 5 5) = Returns (mkRowID 2 5).
Proof.
  assert ((5 : N) ≤ 5) as H1 by reflexivity.
  assert (5 < ChunkOffset_modulus) as H2 by reflexivity.
  exact (proj1 (X14_iterator_guards_are_debug_only (λ _, matches_all_scenario_A)
                  (MatchesAllPosListHpp.mkPosListIterator 9 5 5)
                  (MatchesAllPosListHpp.mkPosListIterator 9 5 5)) H1 H2).
Defined.

(** ** [SingleChunkPosList] *)

(** X15: a [SingleChunkPosList] with a valid range stands for the slice of
    the index's offsets between its two iterators: [size()] is the length
    of the slice, [empty()] tells whether the slice is empty, and
    [operator[](i)] returns the list's chunk id paired with the [i]-th
    offset of the slice. *)
Theorem X15_range_is_slice_of_index (idx : list ChunkOffset)
    (s : SingleChunkPosListHpp.SingleChunkPosList) (b e : nat) :
  SingleChunkPosListHpp.valid_range idx s →
  SingleChunkPosListHpp.range_begin s = SingleChunkPosListHpp.at_position b →
  SingleChunkPosListHpp.range_end s = SingleChunkPosListHpp.at_position e →
  let slice := take (e - b) (drop b idx) in
  SingleChunkPosListHpp.size s = Returns (N.of_nat (length slice))
  ∧ SingleChunkPosListHpp.empty s = Returns (bool_decide (slice = []))
  ∧ ∀ (i : nat) o, slice !! i = Some o →
      SingleChunkPosListHpp.operator_index idx s (N.of_nat i)
      = Returns (mkRowID (SingleChunkPosListHpp._chunk_id s) o).
Proof.
  intros Hv Hb He slice.
  pose proof Hv as Hv'. unfold SingleChunkPosListHpp.valid_range in Hv'.
  rewrite Hb, He in Hv'. destruct Hv' as [Hbe Hlen].
  assert (length slice = (e - b)%nat) as Hslice.
  { unfold slice. rewrite length_take, length_drop. lia. }
  split; [|split].
  - rewrite Hslice. by apply (SingleChunkFacts.SingleChunk_size_valid idx).
  - unfold SingleChunkPosListHpp.empty. rewrite Hb, He. f_equal.
    apply bool_decide_ext. split.
    + intros ->. apply nil_length_inv. rewrite Hslice. lia.
    + intros Hnil. rewrite Hnil in Hslice. simpl in Hslice. lia.
  - intros i o Ho.
    apply (SingleChunkFacts.SingleChunk_index_reads_index idx s (N.of_nat i) b o Hb).
    unfold slice in Ho. apply lookup_take_Some in Ho as [Ho _].
    rewrite lookup_drop in Ho. by rewrite Nat2N.id.
Qed.

Lemma X15_range_is_slice_of_index_witness :
  SingleChunkPosListHpp.valid_range example_index range_scenario_E
  ∧ SingleChunkPosListHpp.size range_scenario_E = Returns 7
  ∧ SingleChunkPosListHpp.operator_index example_index range_scenario_E 6
    = Returns (mkRowID 4 16).
Proof.
  assert (SingleChunkPosListHpp.valid_range example_index range_scenario_E) as H.
  { unfold SingleChunkPosListHpp.valid_range. simpl. split; [lia|done]. }
  pose proof (X15_range_is_slice_of_index example_index range_scenario_E 0 7 H eq_refl eq_refl)
    as (H1 & _ & H3).
  split; [exact H|]. split; [exact H1|]. exact (H3 6%nat 16 eq_refl).
Defined.

(** ** The materialized [PosList] of abstract_pos_list.hpp *)

Module GuaranteeFacts.
Import AbstractPosListHpp.

Lemma scan_true_iff_one_chunk first rest :
  forallb (λ row_id, bool_decide (chunk_id row_id = chunk_id first)) (first :: rest) = true
  ↔ ∀ r r', r ∈ first :: rest → r' ∈ first :: rest → chunk_id r = chunk_id r'.
Proof.
  rewrite forallb_forall. split.
  - intros Hall r r' Hr Hr'.
    apply list_elem_of_In, Hall, bool_decide_eq_true in Hr.
    apply list_elem_of_In, Hall, bool_decide_eq_true in Hr'. congruence.
  - intros Hall r Hr. apply bool_decide_eq_true. apply Hall.
    + by apply list_elem_of_In.
    + apply elem_of_cons. by left.
Qed.

End GuaranteeFacts.

(** X17: what [references_single_chunk()] of the materialized [PosList]
    answers.  Without the guarantee it returns [false] in every build, also
    when all rows do lie in one chunk; a release build returns the flag as
    it is; in a debug build, once the guarantee was given, it returns
    [true] exactly when all rows of the list have the same chunk id, and
    throws otherwise. *)
Theorem X17_references_single_chunk_verdict (l : AbstractPosListHpp.PosList) :
  (∀ dbg v, AbstractPosListHpp.references_single_chunk dbg (AbstractPosListHpp.PosList_of_rows v)
            = Returns false)
  ∧ AbstractPosListHpp.references_single_chunk false l
    = Returns (AbstractPosListHpp._references_single_chunk l)
  ∧ (AbstractPosListHpp.references_single_chunk true (AbstractPosListHpp.guarantee_single_chunk l)
     = Returns true
     ↔ ∀ r r', r ∈ AbstractPosListHpp.Vector l → r' ∈ AbstractPosListHpp.Vector l →
               chunk_id r = chunk_id r')
  ∧ (AbstractPosListHpp.references_single_chunk true (AbstractPosListHpp.guarantee_single_chunk l)
     ≠ Returns true →
     AbstractPosListHpp.references_single_chunk true (AbstractPosListHpp.guarantee_single_chunk l)
     = Fails "Chunk was marked as referencing only a single chunk, but references more").
Proof.
  split; [by intros []|]. split.
  { unfold AbstractPosListHpp.references_single_chunk, DebugAssert.
    by destruct (AbstractPosListHpp._references_single_chunk l) eqn:Hflag. }
  unfold AbstractPosListHpp.references_single_chunk, AbstractPosListHpp.single_chunk_scan,
    DebugAssert, AbstractPosListHpp.size, AbstractPosListHpp.operator_index. simpl.
  destruct (AbstractPosListHpp.Vector l) as [|first rest] eqn:Hv.
  - simpl. split; [|done]. split; [|done]. intros _ r r' Hr. by apply elem_of_nil in Hr.
  - rewrite bool_decide_eq_false_2 by (unfold Vector_size; simpl; lia).
    change (Vector_index (first :: rest) 0) with (Returns first).
    cbn [mbind Outcome_bind].
    pose proof (GuaranteeFacts.scan_true_iff_one_chunk first rest) as Hscan.
    destruct (forallb _ (first :: rest)) eqn:Hall; cbn [Assert mbind Outcome_bind].
    + split; [|done]. split; [|done]. intros _. by apply Hscan.
    + split; [|done]. split; [done|]. intros Hone. apply Hscan in Hone. done.
Qed.

Lemma X17_references_single_chunk_verdict_witness :
  AbstractPosListHpp.references_single_chunk true wrongly_guaranteed
  = Fails "Chunk was marked as referencing only a single chunk, but references more".
Proof.
  assert (AbstractPosListHpp.references_single_chunk true
            (AbstractPosListHpp.guarantee_single_chunk
               (AbstractPosListHpp.PosList_of_rows [mkRowID 0 0; mkRowID 1 0]))
          ≠ Returns true) as H by (vm_compute; discriminate).
  exact (proj2 (proj2 (proj2 (X17_references_single_chunk_verdict
                                (AbstractPosListHpp.PosList_of_rows [mkRowID 0 0; mkRowID 1 0]))))
           H).
Defined.

(** ** The record labels of viz_record_layout.cpp *)

Module VizRecordLayoutFacts.
Import Stdlib.Strings.Ascii VizRecordLayoutCpp.

Lemma backslash_not_special : is_special "\" = false.
Proof. done. Qed.

Lemma append_empty_r (s : string) : s +:+ "" = s.
Proof.
  induction s as [|c s IH]; [done|].
  change (String c (s +:+ "") = String c s). by rewrite IH.
Qed.

Lemma escape_injective (s s' : string) : escape s = escape s' → s = s'.
Proof.
  revert s'. induction s as [|a s IH]; intros [|a' s'] H; simpl in H.
  - done.
  - by destruct (is_special a').
  - by destruct (is_special a).
  - destruct (is_special a) eqn:Ha, (is_special a') eqn:Ha'.
    + injection H as -> H. by rewrite (IH s' H).
    + injection H as <- H. destruct s' as [|b s']; simpl in H; [done|].
      destruct (is_special b) eqn:Hb; injection H as H1 H2.
      * subst a. by rewrite backslash_not_special in Ha.
      * subst b. congruence.
    + injection H as -> H. destruct s as [|b s]; simpl in H; [done|].
      destruct (is_special b) eqn:Hb; injection H as H1 H2.
      * subst a'. by rewrite backslash_not_special in Ha'.
      * subst b. congruence.
    + injection H as -> H. by rewrite (IH s' H).
Qed.

Lemma escape_guards (s : string) (i : nat) (c : ascii) :
  String.get i (escape s) = Some c → is_special c = true →
  ∃ j, i = S j ∧ String.get j (escape s) = Some "\"%char.
Proof.
  revert i. induction s as [|a s IH]; intros i Hget Hc; simpl in *; [done|].
  destruct (is_special a) eqn:Ha.
  - destruct i as [|[|i]]; simpl in Hget.
    + injection Hget as <-. by rewrite backslash_not_special in Hc.
    + by exists 0%nat.
    + destruct (IH i Hget Hc) as (j & -> & Hj). by exists (S (S j)).
  - destruct i as [|i]; simpl in Hget.
    + injection Hget as <-. congruence.
    + destruct (IH i Hget Hc) as (j & -> & Hj). by exists (S j).
Qed.

Lemma escape_length (s : string) :
  (String.length s ≤ String.length (escape s) ≤ 2 * String.length s)%nat.
Proof.
  induction s as [|a s IH]; simpl; [lia|].
  destruct (is_special a); simpl; lia.
Qed.

Lemma escape_identity (s : string) :
  escape s = s ↔ ∀ i c, String.get i s = Some c → is_special c = false.
Proof.
  induction s as [|a s IH]; simpl.
  - split; [by intros _ [|i] c|done].
  - destruct (is_special a) eqn:Ha.
    + split.
      * intros [= <- _]. by rewrite backslash_not_special in Ha.
      * intros Hall. specialize (Hall 0%nat a eq_refl). congruence.
    + split.
      * intros [= Hs] [|i] c Hget; simpl in Hget.
        -- by injection Hget as <-.
        -- by apply (proj1 IH Hs i).
      * intros Hall. f_equal. apply IH. intros i c Hget. by apply (Hall (S i)).
Qed.

Lemma to_label_string_join (elements : list (string + VizRecordLayout)) :
  to_label_string (mkVizRecordLayout elements)
  = "{" +:+ String.concat " | " (element_string <$> elements) +:+ "}".
Proof.
  cbn [to_label_string]. f_equal. f_equal.
  induction elements as [|e rest IH]; [done|].
  rewrite IH. cbn [fmap list_fmap String.concat].
  destruct rest as [|e' rest]; cbn [fmap list_fmap String.concat]; [|done].
  by rewrite !append_empty_r.
Qed.

Lemma content_add_labels (labels : list string) (layout : VizRecordLayout) :
  content (fold_left (λ lay label, add_label label lay) labels layout)
  = content layout ++ ((λ label, inl (escape label)) <$> labels).
Proof.
  revert layout. induction labels as [|label labels IH]; intros layout; simpl.
  - by rewrite app_nil_r.
  - rewrite IH. unfold add_label. simpl. by rewrite <- app_assoc.
Qed.

End VizRecordLayoutFacts.

Import Stdlib.Strings.Ascii.

(** X18: [escape] guards every special character: in its output each of
    [< > { } | [ ]] is immediately preceded by a backslash.  The output
    is at least as long as the input and at most twice as long, and it is
    the input itself exactly when the input holds no special character. *)
Theorem X18_escape_guards_special_characters (s : string) :
  (∀ i c, String.get i (VizRecordLayoutCpp.escape s) = Some c →
          VizRecordLayoutCpp.is_special c = true →
          ∃ j, i = S j
               ∧ String.get j (VizRecordLayoutCpp.escape s) = Some "\"%char)
  ∧ (String.length s ≤ String.length (VizRecordLayoutCpp.escape s) ≤ 2 * String.length s)%nat
  ∧ (VizRecordLayoutCpp.escape s = s
     ↔ ∀ i c, String.get i s = Some c → VizRecordLayoutCpp.is_special c = false).
Proof.
  split; [|split].
  - apply VizRecordLayoutFacts.escape_guards.
  - apply VizRecordLayoutFacts.escape_length.
  - apply VizRecordLayoutFacts.escape_identity.
Qed.

Lemma X18_escape_guards_special_characters_witness :
  ∃ j, 2%nat = S j ∧ String.get j (VizRecordLayoutCpp.escape "a|b") = Some "\"%char.
Proof.
  exact (proj1 (X18_escape_guards_special_characters "a|b") 2%nat "|"%char eq_refl eq_refl).
Defined.

(** X19: [escape] loses nothing: two labels with the same escaped form are
    the same label (although the backslash itself is not escaped). *)
Theorem X19_escape_is_injective (s s' : string) :
  VizRecordLayoutCpp.escape s = VizRecordLayoutCpp.escape s' → s = s'.
Proof. apply VizRecordLayoutFacts.escape_injective. Qed.

Lemma X19_escape_is_injective_witness :
  VizRecordLayoutCpp.escape "a|b" = VizRecordLayoutCpp.escape "a|b" ∧ "a|b" = "a|b".
Proof.
  assert (VizRecordLayoutCpp.escape "a|b" = VizRecordLayoutCpp.escape "a|b") as H
    by reflexivity.
  split; [exact H|]. exact (X19_escape_is_injective "a|b" "a|b" H).
Defined.

(** X20: [to_label_string] writes the strings of the elements of a layout,
    separated by [" | "] and enclosed in braces, a sublayout being written
    by the same rule; so a layout built from the empty one by [add_label]
    calls prints as the escaped labels joined by [" | "] in braces, the
    empty layout prints as [{}], and [add_sublayout] adds the element
    [{}]. *)
Theorem X20_label_string_joins_elements (layout : VizRecordLayoutCpp.VizRecordLayout)
    (labels : list string) :
  VizRecordLayoutCpp.to_label_string layout
  = "{" +:+ String.concat " | "
              (VizRecordLayoutCpp.element_string <$> VizRecordLayoutCpp.content layout)
    +:+ "}"
  ∧ VizRecordLayoutCpp.to_label_string
      (fold_left (λ lay label, VizRecordLayoutCpp.add_label label lay) labels
         (VizRecordLayoutCpp.mkVizRecordLayout []))
    = "{" +:+ String.concat " | " (VizRecordLayoutCpp.escape <$> labels) +:+ "}"
  ∧ VizRecordLayoutCpp.to_label_string (VizRecordLayoutCpp.mkVizRecordLayout []) = "{}"
  ∧ VizRecordLayoutCpp.element_string <$>
      VizRecordLayoutCpp.content (VizRecordLayoutCpp.add_sublayout layout)
    = (VizRecordLayoutCpp.element_string <$> VizRecordLayoutCpp.content layout) ++ ["{}"].
Proof.
  split; [|split; [|split]].
  - destruct layout as [elements]. apply VizRecordLayoutFacts.to_label_string_join.
  - destruct (fold_left _ labels _) as [elements] eqn:Hfold.
    rewrite VizRecordLayoutFacts.to_label_string_join.
    pose proof (VizRecordLayoutFacts.content_add_labels labels
                  (VizRecordLayoutCpp.mkVizRecordLayout [])) as Hc.
    rewrite Hfold in Hc. simpl in Hc. rewrite Hc. by rewrite <- list_fmap_compose.
  - done.
  - destruct layout as [elements]. simpl. by rewrite fmap_app.
Qed.

(** ** counting_quotient_filter.cpp *)

Module CountingQuotientFilterFacts.
Import CountingQuotientFilterCpp.

Lemma get_hash_bits_in_range hash bit_count :
  1 ≤ bit_count → bit_count ≤ 64 →
  get_hash_bits hash bit_count
  = Returns (((hash * 11400714819323198485) mod 2 ^ 64) / 2 ^ (64 - bit_count))
  ∧ ((hash * 11400714819323198485) mod 2 ^ 64) / 2 ^ (64 - bit_count) < 2 ^ bit_count.
Proof.
  intros H1 H64. unfold get_hash_bits.
  assert ((64 + 2 ^ 64 - bit_count mod 2 ^ 64) mod 2 ^ 64 = 64 - bit_count) as ->.
  { rewrite (N.mod_small bit_count) by lia.
    replace (64 + 2 ^ 64 - bit_count) with ((64 - bit_count) + 1 * 2 ^ 64) by lia.
    rewrite N.Div0.mod_add. apply N.mod_small. lia. }
  rewrite bool_decide_eq_true_2 by lia.
  rewrite N.shiftr_div_pow2. split; [done|].
  apply N.Div0.div_lt_upper_bound.
  rewrite <- N.pow_add_r.
  replace (64 - bit_count + bit_count) with 64 by lia.
  apply N.mod_lt. done.
Qed.

Ltac split_guard P :=
  destruct (decide P);
  [rewrite (bool_decide_eq_true_2 P) in * by done
  |rewrite (bool_decide_eq_false_2 P) in * by done];
  cbn [mbind Outcome_bind negb] in *.

(** The constructor, guard by guard. *)
Lemma ctor_returns fp q r f :
  CountingQuotientFilter_ctor fp q r = Returns f ↔
  fp = false ∧ 0 < q ∧ (q + r) mod 2 ^ 64 ≤ 64
  ∧ _hash_bits f = (q + r) mod 2 ^ 64
  ∧ (r = 2 ∧ _quotient_filter f = gqf2 ∨ r = 4 ∧ _quotient_filter f = gqf4
     ∨ r = 8 ∧ _quotient_filter f = gqf8 ∨ r = 16 ∧ _quotient_filter f = gqf16
     ∨ r = 32 ∧ _quotient_filter f = gqf32).
Proof.
  unfold CountingQuotientFilter_ctor, Assert. destruct f as [hb v].
  split_guard (0 < q); [|split; [done|tauto]].
  split_guard ((q + r) mod 2 ^ 64 ≤ 64); [|split; [done|tauto]].
  destruct fp; cbn [mbind Outcome_bind negb]; [split; [done|by intros [? _]]|].
  cbn [_hash_bits _quotient_filter].
  split_guard (r = 2).
  { split; [intros [= <- <-]; tauto|]. intros (_ & _ & _ & -> & H). f_equal.
    destruct H as [[_ ->]|[[? _]|[[? _]|[[? _]|[? _]]]]]; (done || lia). }
  split_guard (r = 4).
  { split; [intros [= <- <-]; tauto|]. intros (_ & _ & _ & -> & H). f_equal.
    destruct H as [[? _]|[[_ ->]|[[? _]|[[? _]|[? _]]]]]; (done || lia). }
  split_guard (r = 8).
  { split; [intros [= <- <-]; tauto|]. intros (_ & _ & _ & -> & H). f_equal.
    destruct H as [[? _]|[[? _]|[[_ ->]|[[? _]|[? _]]]]]; (done || lia). }
  split_guard (r = 16).
  { split; [intros [= <- <-]; tauto|]. intros (_ & _ & _ & -> & H). f_equal.
    destruct H as [[? _]|[[? _]|[[? _]|[[_ ->]|[? _]]]]]; (done || lia). }
  split_guard (r = 32).
  { split; [intros [= <- <-]; tauto|]. intros (_ & _ & _ & -> & H). f_equal.
    destruct H as [[? _]|[[? _]|[[? _]|[[? _]|[_ ->]]]]]; (done || lia). }
  split; [done|]. intros (_ & _ & _ & _ & H). exfalso. tauto.
Qed.

End CountingQuotientFilterFacts.

(** X21: which arguments the constructor of [CountingQuotientFilter]
    accepts: the element type must not be a floating point type, the
    quotient size must be positive, the sum of the two sizes (a [size_t])
    must not exceed 64, and the remainder size must be one of 2, 4, 8, 16,
    32; a quotient size of 0 is reported first.  When the sum of the sizes
    does not wrap around, an accepted filter has [_hash_bits] equal to the
    sum, between 3 and 64. *)
Theorem X21_filter_constructor_accepts (is_floating_point : bool) (q r : size_t) :
  (returned (CountingQuotientFilterCpp.CountingQuotientFilter_ctor is_floating_point q r)
   ↔ is_floating_point = false ∧ 0 < q ∧ (q + r) mod 2 ^ 64 ≤ 64
     ∧ (r = 2 ∨ r = 4 ∨ r = 8 ∨ r = 16 ∨ r = 32))
  ∧ (q = 0 → CountingQuotientFilterCpp.CountingQuotientFilter_ctor is_floating_point q r
             = Fails "Quotient size can not be zero.")
  ∧ (∀ f, CountingQuotientFilterCpp.CountingQuotientFilter_ctor is_floating_point q r
          = Returns f →
          q + r < 2 ^ 64 →
          CountingQuotientFilterCpp._hash_bits f = q + r
          ∧ 3 ≤ CountingQuotientFilterCpp._hash_bits f ≤ 64).
Proof.
  split; [|split].
  - split.
    + intros [f Hf]. apply CountingQuotientFilterFacts.ctor_returns in Hf.
      destruct Hf as (? & ? & ? & _ & H). repeat split; [done..|]. tauto.
    + intros (Hfp & Hq & Hh & Hr).
      destruct Hr as [-> | [-> | [-> | [-> | ->]]]].
      * exists (CountingQuotientFilterCpp.mkCountingQuotientFilter
                  ((q + 2) mod 2 ^ 64) CountingQuotientFilterCpp.gqf2).
        apply CountingQuotientFilterFacts.ctor_returns. simpl. tauto.
      * exists (CountingQuotientFilterCpp.mkCountingQuotientFilter
                  ((q + 4) mod 2 ^ 64) CountingQuotientFilterCpp.gqf4).
        apply CountingQuotientFilterFacts.ctor_returns. simpl. tauto.
      * exists (CountingQuotientFilterCpp.mkCountingQuotientFilter
                  ((q + 8) mod 2 ^ 64) CountingQuotientFilterCpp.gqf8).
        apply CountingQuotientFilterFacts.ctor_returns. simpl. tauto.
      * exists (CountingQuotientFilterCpp.mkCountingQuotientFilter
                  ((q + 16) mod 2 ^ 64) CountingQuotientFilterCpp.gqf16).
        apply CountingQuotientFilterFacts.ctor_returns. simpl. tauto.
      * exists (CountingQuotientFilterCpp.mkCountingQuotientFilter
                  ((q + 32) mod 2 ^ 64) CountingQuotientFilterCpp.gqf32).
        apply CountingQuotientFilterFacts.ctor_returns. simpl. tauto.
  - intros ->. done.
  - intros f Hf Hsum. apply CountingQuotientFilterFacts.ctor_returns in Hf.
    destruct Hf as (_ & Hq & Hh & -> & Hr).
    rewrite N.mod_small in * by done. lia.
Qed.

Lemma X21_filter_constructor_accepts_witness :
  CountingQuotientFilterCpp._hash_bits (CountingQuotientFilterCpp.mkCountingQuotientFilter 12 CountingQuotientFilterCpp.gqf8) = 4 + 8
  ∧ 3 ≤ CountingQuotientFilterCpp._hash_bits
          (CountingQuotientFilterCpp.mkCountingQuotientFilter 12 CountingQuotientFilterCpp.gqf8)
      ≤ 64.
Proof.
  assert (4 + 8 < 2 ^ 64) as H by reflexivity.
  exact (proj2 (proj2 (X21_filter_constructor_accepts false 4 8))
           (CountingQuotientFilterCpp.mkCountingQuotientFilter 12 CountingQuotientFilterCpp.gqf8)
           eq_refl H).
Defined.

(** X22: for 1 to 64 hash bits [get_hash_bits] returns the top
    [bit_count] bits of the 64-bit product of the hash and the constant
    [11400714819323198485]: the product shifted right by [64 - bit_count],
    whose bit [i] is bit [i + 64 - bit_count] of the product, a value
    below [2^bit_count].  For 0 hash bits it shifts by 64, which is
    undefined.  A filter that the constructor accepted without wrap-around
    therefore hashes every value to these top bits, a number that fits its
    [_hash_bits]. *)
Theorem X22_hash_fits_hash_bits (hash : N) (bit_count : N) :
  let product := (hash * 11400714819323198485) mod 2 ^ 64 in
  (1 ≤ bit_count → bit_count ≤ 64 →
   ∃ v, CountingQuotientFilterCpp.get_hash_bits hash bit_count = Returns v
        ∧ v = product / 2 ^ (64 - bit_count)
        ∧ (∀ i, N.testbit v i = N.testbit product (i + (64 - bit_count)))
        ∧ v < 2 ^ bit_count)
  ∧ CountingQuotientFilterCpp.get_hash_bits hash 0 = Undefined
  ∧ (∀ fp q r f,
       CountingQuotientFilterCpp.CountingQuotientFilter_ctor fp q r = Returns f →
       q + r < 2 ^ 64 →
       ∃ v, CountingQuotientFilterCpp.get_hash_bits hash
              (CountingQuotientFilterCpp._hash_bits f) = Returns v
            ∧ v = product / 2 ^ (64 - CountingQuotientFilterCpp._hash_bits f)
            ∧ (∀ i, N.testbit v i
                    = N.testbit product (i + (64 - CountingQuotientFilterCpp._hash_bits f)))
            ∧ v < 2 ^ CountingQuotientFilterCpp._hash_bits f).
Proof.
  intros product.
  assert (∀ bc, 1 ≤ bc → bc ≤ 64 →
            ∃ v, CountingQuotientFilterCpp.get_hash_bits hash bc = Returns v
                 ∧ v = product / 2 ^ (64 - bc)
                 ∧ (∀ i, N.testbit v i = N.testbit product (i + (64 - bc)))
                 ∧ v < 2 ^ bc)
    as Hrange.
  { intros bc H1 H64.
    destruct (CountingQuotientFilterFacts.get_hash_bits_in_range hash bc H1 H64) as [Heq Hlt].
    eexists. split; [exact Heq|]. split; [done|]. split; [|exact Hlt].
    intros i. fold product. rewrite <- N.shiftr_div_pow2. apply N.shiftr_spec'. }
  split; [by apply Hrange|]. split; [done|].
  intros fp q r f Hf Hsum.
  assert (3 ≤ CountingQuotientFilterCpp._hash_bits f ≤ 64) as [H3 H64].
  { apply CountingQuotientFilterFacts.ctor_returns in Hf.
    destruct Hf as (_ & Hq & Hh & -> & Hr).
    rewrite N.mod_small in * by done. lia. }
  apply Hrange; lia.
Qed.

Lemma X22_hash_fits_hash_bits_witness :
  ∃ v, CountingQuotientFilterCpp.get_hash_bits 12345 12 = Returns v
       ∧ v = ((12345 * 11400714819323198485) mod 2 ^ 64) / 2 ^ (64 - 12)
       ∧ (∀ i, N.testbit v i
               = N.testbit ((12345 * 11400714819323198485) mod 2 ^ 64) (i + (64 - 12)))
       ∧ v < 2 ^ 12.
Proof.
  assert ((1 : N) ≤ 12) as H1 by (vm_compute; discriminate).
  assert ((12 : N) ≤ 64) as H2 by (vm_compute; discriminate).
  exact (proj1 (X22_hash_fits_hash_bits 12345 12) H1 H2).
Defined.
